(** * ACARS Parser GUI: batch extraction front end

    A shallow embedding of [gui/acars_parser_gui_dnd_fix2.py]: the
    drag-and-drop payload splitter [_split_dnd_files], the output path
    resolver [App._output_path_for], and the queue worker started by
    [App.run_queue].

    Python's [str] is modelled by [string]; every [ascii] stands for one
    code point below 256.  The [os.path] functions are those of CPython's
    [posixpath] (separator [/]).  *)

From Stdlib Require Import Bool Arith ZArith List Ascii String Lia.
From Stdlib Require Import DecimalString.
Import ListNotations.

Local Open Scope string_scope.
Local Open Scope list_scope.

Notation "a ^^ b" := (String.append a b) (at level 60, right associativity).

(** ** Python string primitives *)

Module PyStr.

(** [str.isspace] on one character: the code points below 256 that Python
    classifies as whitespace. *)
Definition isspace (c : ascii) : bool :=
  let n := N_of_ascii c in
  ((9 <=? n) && (n <=? 13) || (28 <=? n) && (n <=? 32)
   || (n =? 133) || (n =? 160))%N.

Definition is_empty (s : string) : bool :=
  match s with EmptyString => true | String _ _ => false end.

(** Truthiness of a [str]: [if s:] holds for every non-empty string. *)
Definition truthy (s : string) : bool := negb (is_empty s).

Fixpoint lstrip_by (f : ascii -> bool) (s : string) : string :=
  match s with
  | EmptyString => EmptyString
  | String c r => if f c then lstrip_by f r else s
  end.

Fixpoint rstrip_by (f : ascii -> bool) (s : string) : string :=
  match s with
  | EmptyString => EmptyString
  | String c r =>
      match rstrip_by f r with
      | EmptyString => if f c then EmptyString else String c EmptyString
      | r' => String c r'
      end
  end.

(** [s.strip()] *)
Definition strip (s : string) : string :=
  rstrip_by isspace (lstrip_by isspace s).

(** [s.rstrip(c)] for a one-character argument. *)
Definition rstrip_char (c : ascii) (s : string) : string :=
  rstrip_by (Ascii.eqb c) s.

(** [s.rfind(c)] for a one-character needle: index of the last
    occurrence, [-1] when there is none. *)
Fixpoint rfind (c : ascii) (s : string) : Z :=
  match s with
  | EmptyString => -1
  | String a r =>
      let i := rfind c r in
      if (0 <=? i)%Z then (i + 1)%Z
      else if Ascii.eqb a c then 0%Z else (-1)%Z
  end.

(** [s[:n]] and [s[n:]] for a non-negative [n]. *)
Fixpoint take (n : nat) (s : string) : string :=
  match n, s with
  | S n', String c r => String c (take n' r)
  | _, _ => EmptyString
  end.

Fixpoint drop (n : nat) (s : string) : string :=
  match n, s with
  | S n', String _ r => drop n' r
  | _, _ => s
  end.

(** [s[i:j]] for non-negative bounds. *)
Definition slice (i j : nat) (s : string) : string :=
  take (j - i) (drop i s).

(** [s.startswith(c)] and [s.endswith(c)] for a one-character argument. *)
Definition startswith (c : ascii) (s : string) : bool :=
  match s with
  | EmptyString => false
  | String a _ => Ascii.eqb a c
  end.

Fixpoint endswith (c : ascii) (s : string) : bool :=
  match s with
  | EmptyString => false
  | String a EmptyString => Ascii.eqb a c
  | String _ r => endswith c r
  end.

(** [c * n] for a one-character string [c]. *)
Fixpoint repeat_char (c : ascii) (n : nat) : string :=
  match n with
  | O => EmptyString
  | S n' => String c (repeat_char c n')
  end.

(** [needle in s] *)
Fixpoint contains (needle s : string) : bool :=
  String.prefix needle s
  || match s with
     | EmptyString => false
     | String _ r => contains needle r
     end.

Fixpoint forallb (f : ascii -> bool) (s : string) : bool :=
  match s with
  | EmptyString => true
  | String c r => f c && forallb f r
  end.

Fixpoint existsb (f : ascii -> bool) (s : string) : bool :=
  match s with
  | EmptyString => false
  | String c r => f c || existsb f r
  end.

(** [sep.join(parts)] *)
Definition join (sep : string) (parts : list string) : string :=
  String.concat sep parts.

(** [str(n)] for integers. *)
Definition str_nat (n : nat) : string :=
  NilZero.string_of_uint (Nat.to_uint n).

Definition str_int (z : Z) : string :=
  NilZero.string_of_int (Z.to_int z).

End PyStr.

(** ** posixpath *)

Module PosixPath.
Import PyStr.

Definition sep : ascii := "/"%char.
Definition extsep : ascii := "."%char.

(** Index just after the last separator: [p.rfind(sep) + 1]. *)
Definition after_last_sep (p : string) : nat := Z.to_nat (rfind sep p + 1).

Definition basename (p : string) : string :=
  let i := after_last_sep p in
  drop i p.

Definition dirname (p : string) : string :=
  let i := after_last_sep p in
  let head := take i p in
  if truthy head && negb (String.eqb head (repeat_char sep (String.length head)))
  then rstrip_char sep head
  else head.

(** [genericpath._splitext(p, sep, None, extsep)]: the extension starts at
    the last dot of the last path component, unless that component has
    nothing but dots before it. *)
Definition splitext (p : string) : string * string :=
  let sepIndex := rfind sep p in
  let dotIndex := rfind extsep p in
  if (sepIndex <? dotIndex)%Z
     && existsb (fun c => negb (Ascii.eqb c extsep))
          (slice (Z.to_nat (sepIndex + 1)) (Z.to_nat dotIndex) p)
  then (take (Z.to_nat dotIndex) p, drop (Z.to_nat dotIndex) p)
  else (p, EmptyString).

(** [os.path.join(a, b)] with two arguments. *)
Definition join (a b : string) : string :=
  if startswith sep b then b
  else if is_empty a || endswith sep a then a ^^ b
  else a ^^ String sep b.

End PosixPath.

(** ** Drag-and-drop payload splitter *)

Module Dnd.
Import PyStr.

(** Loop state of [_split_dnd_files]: the tokens found so far, the token
    under construction and the brace flag. *)
Record scan_state := mkScan {
  out : list string;
  cur : string;
  in_brace : bool
}.

Definition flush (st : scan_state) : list string :=
  if truthy (cur st) then out st ++ [cur st] else out st.

Definition scan_step (st : scan_state) (ch : ascii) : scan_state :=
  if Ascii.eqb ch "{" then mkScan (out st) "" true
  else if Ascii.eqb ch "}" then mkScan (flush st) "" false
  else if isspace ch && negb (in_brace st) then mkScan (flush st) "" (in_brace st)
  else mkScan (out st) (cur st ^^ String ch "") (in_brace st).

Fixpoint scan (st : scan_state) (data : string) : scan_state :=
  match data with
  | EmptyString => st
  | String ch r => scan (scan_step st ch) r
  end.

(** [p.replace('\\\\', '\\')]: every pair of backslashes, found left to
    right without overlap, becomes one backslash. *)
Fixpoint unescape (p : string) : string :=
  match p with
  | String "\" (String "\" r) => String "\" (unescape r)
  | String c r => String c (unescape r)
  | EmptyString => EmptyString
  end.

Definition _split_dnd_files (data : string) : list string :=
  if negb (truthy data) then []
  else
    let data := strip data in
    let st := scan (mkScan [] "" false) data in
    map unescape (flush st).

End Dnd.

(** ** The application state and its log *)

Module App.
Import PyStr.

(** The Tk state the code reads: the queue list box and the five
    variables bound to the entry fields and check boxes. *)
Record Gui := mkGui {
  lst : list string;
  exe_var : string;
  outdir_var : string;
  pretty_var : bool;
  all_var : bool;
  stats_var : bool
}.

Definition nl : string := String (ascii_of_nat 10) "".

(** One constructor per [self._append(...)] call site. *)
Inductive Event :=
| EvWarn (path : string)
| EvQueueLength (n : nat)
| EvRunning (idx total : nat) (args : list string)
| EvLine (line : string)
| EvInfo
| EvRetry (args2 : list string)
| EvOk (outp : string)
| EvFail (rc : Z)
| EvExpected (outp : string)
| EvError (msg : string)
| EvDone.

(** The text each call appends to the console widget. *)
Definition render (e : Event) : string :=
  match e with
  | EvWarn path => "[WARN] Not found: " ^^ path ^^ nl
  | EvQueueLength n => "Queue length: " ^^ str_nat n ^^ nl ^^ nl
  | EvRunning idx total args =>
      nl ^^ "[" ^^ str_nat idx ^^ "/" ^^ str_nat total ^^ "] Running:" ^^ nl
      ^^ "  " ^^ join " " args ^^ nl
  | EvLine line => line
  | EvInfo =>
      nl ^^ "[INFO] This build does not support -stats. Retrying without -stats..." ^^ nl
  | EvRetry args2 => "  " ^^ join " " args2 ^^ nl
  | EvOk outp => "[OK] Output: " ^^ outp ^^ nl
  | EvFail rc => "[FAIL] Exit code: " ^^ str_int rc ^^ nl
  | EvExpected outp => "       Expected output: " ^^ outp ^^ nl
  | EvError msg => "[ERROR] " ^^ msg ^^ nl
  | EvDone => nl ^^ "Done." ^^ nl
  end.

(** [App._add_to_queue]: the list box content after the call and the
    warnings appended to the console; [found] is [os.path.exists]. *)
Fixpoint _add_to_queue (found : string -> bool) (paths : list string)
    (queue : list string) : list string * list Event :=
  match paths with
  | [] => (queue, [])
  | p :: rest =>
      let p := strip p in
      if negb (truthy p) then _add_to_queue found rest queue
      else if negb (found p) then
        let '(q, warnings) := _add_to_queue found rest queue in
        (q, EvWarn p :: warnings)
      else if List.existsb (String.eqb p) queue then _add_to_queue found rest queue
      else _add_to_queue found rest (queue ++ [p])
  end.

(** [App._on_drop] for the payload [event.data]. *)
Definition _on_drop (found : string -> bool) (data : string)
    (queue : list string) : list string * list Event :=
  match Dnd._split_dnd_files data with
  | [] => (queue, [])
  | paths => _add_to_queue found paths queue
  end.

(** [App._output_path_for], as a function of the text of the output
    folder field and of the input path. *)
Definition _output_path_for (outdir_text inp : string) : string :=
  let '(stem, _ext) := PosixPath.splitext (PosixPath.basename inp) in
  let outname := stem ^^ ".json" in
  let outdir := strip outdir_text in
  PosixPath.join (if truthy outdir then outdir else PosixPath.dirname inp) outname.

(** The literal the worker looks for in the output of a failed run. *)
Definition stats_marker : string := "flag provided but not defined: -stats".

(** How one launched process ends: [p.wait()] returns an exit code, or
    an exception is raised by [Popen] or while the pipe is read. *)
Inductive ProcEnd :=
| Exited (rc : Z)
| Raised (msg : string).

(** What one [subprocess.Popen] call lets the worker observe: the lines
    read from the merged stdout/stderr pipe, then the end.  A launch
    failure is [Raised] with no line read. *)
Record Proc := mkProc {
  p_lines : list string;
  p_end : ProcEnd
}.

Inductive Res (A : Type) :=
| Val (a : A)
| Exc (msg : string).
Arguments Val {A} a.
Arguments Exc {A} msg.

Section Worker.

(** The world outside the worker thread: the Tk state (which the user
    keeps editing while the worker runs), the file system and the
    external tool. *)
Variable W : Type.
Variable gui : W -> Gui.
(** [os.path.exists] *)
Variable path_exists : string -> W -> bool.
(** What happens in the world between two observations of the worker. *)
Variable step : W -> W.
(** One process launch, from the moment of [Popen] to the end of the run. *)
Variable spawn : list string -> W -> Proc * W.

(** Computations of the worker: they read and change the world, append
    to the console and may raise.  Only a process launch and the reading
    of its pipe raise; reading a Tk variable, appending to the console
    and [os.path.exists] always return. *)
Definition M (A : Type) : Type := W -> Res A * W * list Event.

Definition ret {A} (a : A) : M A := fun w => (Val a, w, []).

Definition bind {A B} (m : M A) (k : A -> M B) : M B :=
  fun w =>
    match m w with
    | (Val a, w1, ev1) =>
        match k a w1 with
        | (r, w2, ev2) => (r, w2, ev1 ++ ev2)
        end
    | (Exc msg, w1, ev1) => (Exc msg, w1, ev1)
    end.

Definition raise {A} (msg : string) : M A := fun w => (Exc msg, w, []).

(** [try: body  except Exception as e: handler(e)] *)
Definition try_except {A} (body : M A) (handler : string -> M A) : M A :=
  fun w =>
    match body w with
    | (Val a, w1, ev1) => (Val a, w1, ev1)
    | (Exc msg, w1, ev1) =>
        match handler msg w1 with
        | (r, w2, ev2) => (r, w2, ev1 ++ ev2)
        end
    end.

Notation "x <- m ;; k" := (bind m (fun x => k))
  (at level 61, m at next level, right associativity).
Notation "m ;;; k" := (bind m (fun _ => k))
  (at level 61, right associativity).

(** [self._append(s)] *)
Definition _append (e : Event) : M unit := fun w => (Val tt, w, [e]).

(** [self.<name>_var.get()] *)
Definition get {A} (var : Gui -> A) : M A :=
  fun w => let w1 := step w in (Val (var (gui w1)), w1, []).

(** [os.path.exists(path)] *)
Definition exists_ (path : string) : M bool :=
  fun w => let w1 := step w in (Val (path_exists path w1), w1, []).

(** [subprocess.Popen(args, stdout=PIPE, stderr=STDOUT, text=True, ...)] *)
Definition Popen (args : list string) : M Proc :=
  fun w => let '(p, w1) := spawn args w in (Val p, w1, []).

(** [for line in p.stdout: combined += line; self._append(line)] *)
Fixpoint stream_collect (combined : string) (lines : list string) : M string :=
  match lines with
  | [] => ret combined
  | line :: rest =>
      _append (EvLine line) ;;; stream_collect (combined ^^ line) rest
  end.

(** [for line in p2.stdout: self._append(line)] *)
Fixpoint stream_only (lines : list string) : M unit :=
  match lines with
  | [] => ret tt
  | line :: rest => _append (EvLine line) ;;; stream_only rest
  end.

(** [p.wait()], or the exception that ended the run. *)
Definition wait (p : Proc) : M Z :=
  match p_end p with
  | Exited rc => ret rc
  | Raised msg => raise msg
  end.

(** Lines 203-209: the argument vector, the three check boxes read in
    turn. *)
Definition build_args (exe inp outp : string) : M (list string) :=
  let args := [exe; "extract"; "-input"; inp; "-output"; outp] in
  pretty <- get pretty_var ;;
  let args := if pretty then args ++ ["-pretty"] else args in
  all <- get all_var ;;
  let args := if all then args ++ ["-all"] else args in
  stats <- get stats_var ;;
  let args := if stats then args ++ ["-stats"] else args in
  ret args.

(** Line 228: [rc != 0 and self.stats_var.get() and (marker in combined)];
    the check box is read only when the exit code is not zero. *)
Definition should_retry (rc : Z) (combined : string) : M bool :=
  if negb (rc =? 0)%Z then
    stats <- get stats_var ;;
    ret (stats && contains stats_marker combined)
  else ret false.

(** [[a for a in args if a != "-stats"]] *)
Definition without_stats (args : list string) : list string :=
  filter (fun a => negb (String.eqb a "-stats")) args.

(** Lines 214-242: the first run and, when the tool rejects [-stats],
    the second one; the value is the exit code that line 244 tests. *)
Definition run_with_fallback (args : list string) : M Z :=
  p <- Popen args ;;
  combined <- stream_collect "" (p_lines p) ;;
  rc <- wait p ;;
  retry <- should_retry rc combined ;;
  if retry then
    _append EvInfo ;;;
    let args2 := without_stats args in
    _append (EvRetry args2) ;;;
    p2 <- Popen args2 ;;
    stream_only (p_lines p2) ;;;
    rc2 <- wait p2 ;;
    ret rc2
  else ret rc.

(** Lines 244-248: [rc == 0 and os.path.exists(outp)]; the file system is
    looked at only when the exit code is zero. *)
Definition report (rc : Z) (outp : string) : M unit :=
  ok <- (if (rc =? 0)%Z then exists_ outp else ret false) ;;
  if ok then _append (EvOk outp)
  else _append (EvFail rc) ;;; _append (EvExpected outp).

(** The body of the [for idx, inp in enumerate(items, 1)] loop. *)
Definition process_item (exe : string) (total idx : nat) (inp : string) : M unit :=
  outdir_text <- get outdir_var ;;
  let outp := _output_path_for outdir_text inp in
  args <- build_args exe inp outp ;;
  _append (EvRunning idx total args) ;;;
  try_except
    (rc <- run_with_fallback args ;; report rc outp)
    (fun e => _append (EvError e)).

(** The loop over [enumerate(items, idx)]. *)
Fixpoint for_items (exe : string) (total idx : nat) (items : list string) : M unit :=
  match items with
  | [] => ret tt
  | inp :: rest =>
      process_item exe total idx inp ;;; for_items exe total (S idx) rest
  end.

(** The thread body [worker] for the local variables [exe] and [items]
    of [run_queue]. *)
Definition worker (exe : string) (items : list string) : M unit :=
  for_items exe (List.length items) 1 items ;;; _append EvDone.

(** What a call of [run_queue] does: a message box and nothing else, or
    the console is cleared, the queue length appended and the worker
    thread started on the snapshot. *)
Inductive RunQueue :=
| ShowError (title text : string)
| ShowInfo (title text : string)
| Started (exe : string) (items : list string) (thread : Res unit * W * list Event).

Definition run_queue (w : W) : RunQueue :=
  let exe := strip (exe_var (gui w)) in
  if negb (truthy exe) then
    ShowError "Missing" "Select acars_parser executable."
  else if negb (path_exists exe w) then
    ShowError "Not found" ("Executable not found:" ^^ nl ^^ exe)
  else
    let items := lst (gui w) in
    match items with
    | [] => ShowInfo "Queue empty" "Add one or more input files first."
    | _ :: _ =>
        Started exe items
          (bind (_append (EvQueueLength (List.length items)))
                (fun _ => worker exe items) w)
    end.

(** *** Observations used by the properties *)

(** How a finished process hands over its result. *)
Definition end_result (p : Proc) : Res Z :=
  match p_end p with
  | Exited rc => Val rc
  | Raised msg => Exc msg
  end.

(** The closing entries of an item whose runs ended with [r] in world
    [w]: what lines 244-251 append. *)
Definition closing (r : Res Z) (outp : string) (w : W) : list Event :=
  match r with
  | Val rc =>
      if (rc =? 0)%Z && path_exists outp (step w) then [EvOk outp]
      else [EvFail rc; EvExpected outp]
  | Exc msg => [EvError msg]
  end.

End Worker.

End App.

(** ** Vocabulary of the properties *)

Module Props.
Import PyStr App.

(** [needle] occurs somewhere in [s]. *)
Definition Substring (needle s : string) : Prop :=
  exists pre post, s = pre ^^ needle ^^ post.

(** The base name of a path without its last extension. *)
Definition stem (p : string) : string :=
  fst (PosixPath.splitext (PosixPath.basename p)).

Definition has_char (c : ascii) (s : string) : bool :=
  existsb (Ascii.eqb c) s.

(** The argument vector in the documented layout. *)
Definition optional (flag : string) (b : bool) : list string :=
  if b then [flag] else [].

Definition invocation (exe inp outp : string) (pretty all stats : bool) : list string :=
  [exe; "extract"; "-input"; inp; "-output"; outp]
  ++ optional "-pretty" pretty ++ optional "-all" all ++ optional "-stats" stats.

(** The per-item results on the console: [[OK]], [[FAIL]] and [[ERROR]]. *)
Definition is_item_result (e : Event) : bool :=
  match e with
  | EvOk _ | EvFail _ | EvError _ => true
  | _ => false
  end.

Definition is_success (e : Event) : bool :=
  match e with EvOk _ => true | _ => false end.

Definition is_done (e : Event) : bool :=
  match e with EvDone => true | _ => false end.

Definition is_retry (e : Event) : bool :=
  match e with EvRetry _ => true | _ => false end.

Definition reports_success (evs : list Event) : bool := List.existsb is_success evs.

(** The input paths announced by the [Running:] entries, in order. *)
Fixpoint inputs_of (evs : list Event) : list string :=
  match evs with
  | [] => []
  | EvRunning _ _ args :: r => nth 3 args "" :: inputs_of r
  | _ :: r => inputs_of r
  end.

(** The closing entries of an item: one result, with the detail line
    that follows a [[FAIL]]. *)
Inductive result_block : list Event -> Prop :=
| rb_ok outp : result_block [EvOk outp]
| rb_fail rc outp : result_block [EvFail rc; EvExpected outp]
| rb_error msg : result_block [EvError msg].

Definition is_progress (e : Event) : bool :=
  match e with
  | EvLine _ | EvInfo | EvRetry _ => true
  | _ => false
  end.

(** The console entries of item number [idx] with input [inp]: the
    announcement, progress entries, then exactly one result. *)
Inductive item_segment (total : nat) : nat * string -> list Event -> Prop :=
| seg_intro idx inp args body r :
    nth_error args 3 = Some inp ->
    List.forallb is_progress body = true ->
    result_block r ->
    item_segment total (idx, inp) (EvRunning idx total args :: body ++ r).

(** [enumerate(items, idx)] *)
Fixpoint enumerate (idx : nat) (items : list string) : list (nat * string) :=
  match items with
  | [] => []
  | inp :: r => (idx, inp) :: enumerate (S idx) r
  end.

(** *** Shape of a drag-and-drop payload *)

Inductive Seg :=
| Group (g : string)
| Word (w : string)
| Space (s : string).

Definition seg_text (x : Seg) : string :=
  match x with
  | Group g => "{" ^^ g ^^ "}"
  | Word w => w
  | Space s => s
  end.

Fixpoint payload (segs : list Seg) : string :=
  match segs with
  | [] => ""
  | x :: r => seg_text x ^^ payload r
  end.

Definition is_brace (c : ascii) : bool := Ascii.eqb c "{" || Ascii.eqb c "}".

(** A group holds no brace; a word is a non-empty run without brace or
    whitespace; a gap is non-empty whitespace. *)
Definition seg_ok (x : Seg) : bool :=
  match x with
  | Group g => negb (existsb is_brace g)
  | Word w => truthy w && negb (existsb (fun c => is_brace c || isspace c) w)
  | Space s => truthy s && forallb isspace s
  end.

(** Words are maximal: no two of them are adjacent. *)
Fixpoint words_maximal (segs : list Seg) : bool :=
  match segs with
  | [] => true
  | Word _ :: r =>
      match r with
      | Word _ :: _ => false
      | _ => words_maximal r
      end
  | _ :: r => words_maximal r
  end.

Definition well_formed (segs : list Seg) : bool :=
  List.forallb seg_ok segs && words_maximal segs.

(** Braces are balanced and not nested: every opening brace is met
    outside a group and every closing brace inside one. *)
Fixpoint balanced_from (inside : bool) (s : string) : bool :=
  match s with
  | EmptyString => negb inside
  | String c r =>
      if Ascii.eqb c "{" then negb inside && balanced_from true r
      else if Ascii.eqb c "}" then inside && balanced_from false r
      else balanced_from inside r
  end.

Definition balanced (s : string) : bool := balanced_from false s.

(** The groups, words and gaps of a payload, read off from its end: a
    character outside braces joins the word or gap that follows it or
    starts a new one. *)
Definition push_char (c : ascii) (segs : list Seg) : list Seg :=
  if isspace c then
    match segs with
    | Space s :: t => Space (String c s) :: t
    | _ => Space (String c "") :: segs
    end
  else
    match segs with
    | Word w :: t => Word (String c w) :: t
    | _ => Word (String c "") :: segs
    end.

Fixpoint segments_from (s : string) : option string * list Seg :=
  match s with
  | EmptyString => (None, [])
  | String c r =>
      let '(g, segs) := segments_from r in
      match g with
      | Some body =>
          if Ascii.eqb c "{" then (None, Group body :: segs)
          else (Some (String c body), segs)
      | None =>
          if Ascii.eqb c "}" then (Some "", segs)
          else (None, push_char c segs)
      end
  end.

Definition segments (s : string) : list Seg := snd (segments_from s).

(** The tokens as the property describes them: every non-empty group and
    every word. *)
Fixpoint claimed_tokens (segs : list Seg) : list string :=
  match segs with
  | [] => []
  | Group g :: r => (if truthy g then [Dnd.unescape g] else []) ++ claimed_tokens r
  | Word w :: r => Dnd.unescape w :: claimed_tokens r
  | Space _ :: r => claimed_tokens r
  end.

(** The tokens with the word before an opening brace left out. *)
Fixpoint raw_tokens (segs : list Seg) : list string :=
  match segs with
  | [] => []
  | Group g :: r => (if truthy g then [g] else []) ++ raw_tokens r
  | Word w :: r =>
      match r with
      | Group _ :: _ => raw_tokens r
      | _ => w :: raw_tokens r
      end
  | Space _ :: r => raw_tokens r
  end.

Definition tokens (segs : list Seg) : list string :=
  map Dnd.unescape (raw_tokens segs).

End Props.

(** ** A concrete world *)

Module Demo.
Import PyStr App.

Record World := mkWorld {
  d_gui : Gui;
  d_files : list string;
  d_clock : nat;
  d_launched : list (list string)
}.

Definition d_exists (path : string) (w : World) : bool :=
  List.existsb (String.eqb path) (d_files w).

(** Time passes; at the first tick the user drops one more file on the
    window. *)
Definition d_step (w : World) : World :=
  let g := d_gui w in
  let g' :=
    if Nat.eqb (d_clock w) 0
    then mkGui (fst (_on_drop (fun p => d_exists p w) "{late.log}" (lst g)))
               (exe_var g) (outdir_var g)
               (pretty_var g) (all_var g) (stats_var g)
    else g in
  mkWorld g' (d_files w) (S (d_clock w)) (d_launched w).

(** A tool that does not know [-stats]: it cannot be launched on
    [x.log], writes nothing for [empty.log] and otherwise writes its
    output file. *)
Definition d_run (args : list string) (w : World) : Proc * list string :=
  let inp := nth 3 args "" in
  let outp := nth 5 args "" in
  if String.eqb inp "x.log" then
    (mkProc [] (Raised "[Errno 13] Permission denied: 'acars_parser'"), d_files w)
  else if negb (String.eqb (nth 2 args "") "-input" && String.eqb (nth 4 args "") "-output") then
    (mkProc ["usage: acars_parser extract -input FILE -output FILE" ^^ nl] (Exited 2), d_files w)
  else if List.existsb (String.eqb "-stats") (skipn 6 args) then
    (mkProc ["flag provided but not defined: -stats" ^^ nl; "Usage of extract:" ^^ nl]
            (Exited 2), d_files w)
  else if String.eqb inp "empty.log" then
    (mkProc [] (Exited 0), d_files w)
  else
    (mkProc ["wrote " ^^ outp ^^ nl] (Exited 0), outp :: d_files w).

Definition d_spawn (args : list string) (w : World) : Proc * World :=
  let '(p, files) := d_run args w in
  (p, mkWorld (d_gui w) files (d_clock w) (d_launched w ++ [args])).

Definition start (queue : list string) (stats : bool) : World :=
  mkWorld (mkGui queue "acars_parser" "" true true stats)
          ["acars_parser"; "late.log"] 0 [].

Definition start_in (outdir : string) (queue : list string) : World :=
  mkWorld (mkGui queue "acars_parser" outdir true true false) ["acars_parser"] 0 [].

Definition events_of {A} (r : Res A * World * list Event) : list Event := snd r.
Definition world_of {A} (r : Res A * World * list Event) : World := snd (fst r).

Definition demo_worker := worker World d_gui d_exists d_step d_spawn.
Definition demo_item := process_item World d_gui d_exists d_step d_spawn.
Definition demo_run_queue := run_queue World d_gui d_exists d_step d_spawn.

End Demo.

(** ** Editing the queue *)

Module QueueOps.
Import PyStr App.

(** [self.lst.delete(i)]: an index past the end deletes nothing. *)
Fixpoint delete_at (i : nat) (queue : list string) : list string :=
  match queue, i with
  | [], _ => []
  | _ :: r, O => r
  | x :: r, S i' => x :: delete_at i' r
  end.

(** [App.remove_selected], where [sel] is [self.lst.curselection()]:
    the selection is reversed and the positions deleted one by one. *)
Definition remove_selected (sel : list nat) (queue : list string) : list string :=
  fold_left (fun q i => delete_at i q) (rev sel) queue.

(** The items at positions [k], [k+1], ... that are not selected. *)
Fixpoint keep_from (k : nat) (sel : list nat) (queue : list string) : list string :=
  match queue with
  | [] => []
  | x :: r =>
      if List.existsb (Nat.eqb k) sel then keep_from (S k) sel r
      else x :: keep_from (S k) sel r
  end.

(** Positions as [curselection] reports them: in increasing order. *)
Fixpoint ascending (sel : list nat) : bool :=
  match sel with
  | a :: r =>
      match r with
      | b :: _ => Nat.ltb a b && ascending r
      | [] => true
      end
  | [] => true
  end.

(** The paths of a call of [_add_to_queue] that can enter the queue:
    trimmed, not empty and found on disk. *)
Definition admissible (found : string -> bool) (paths : list string) : list string :=
  filter (fun p => truthy p && found p) (map strip paths).

(** The trimmed, non-empty paths that are not found. *)
Definition missing (found : string -> bool) (paths : list string) : list string :=
  filter (fun p => truthy p && negb (found p)) (map strip paths).

End QueueOps.

(** ** Worlds that keep a record of the launches *)

Module Logged.
Import App.

Section Lift.

Variable W : Type.
Variable gui : W -> Gui.
Variable path_exists : string -> W -> bool.
Variable step : W -> W.
Variable spawn : list string -> W -> Proc * W.

(** A world together with the argument vectors launched so far. *)
Definition LW : Type := (W * list (list string))%type.

Definition l_gui (w : LW) : Gui := gui (fst w).
Definition l_exists (path : string) (w : LW) : bool := path_exists path (fst w).
Definition l_step (w : LW) : LW := (step (fst w), snd w).
Definition l_spawn (args : list string) (w : LW) : Proc * LW :=
  let '(p, w1) := spawn args (fst w) in (p, (w1, snd w ++ [args])).

Definition l_worker := App.worker LW l_gui l_exists l_step l_spawn.
Definition l_for_items := App.for_items LW l_gui l_exists l_step l_spawn.
Definition l_process_item := App.process_item LW l_gui l_exists l_step l_spawn.

End Lift.

(** A world whose settings never change: the stats check box stays
    unset, every file exists and the tool prints a line and exits with
    the code [rc]. *)
Definition q_gui (_ : nat) : Gui := mkGui [] "acars_parser" "" true false false.
Definition q_exists (_ : string) (_ : nat) : bool := true.
Definition q_step (n : nat) : nat := S n.
Definition q_spawn (rc : Z) (_ : list string) (n : nat) : Proc * nat :=
  (mkProc ["flag provided but not defined: -stats"] (Exited rc), S n).

End Logged.

(** ** More vocabulary *)

Module MoreProps.
Import PyStr App Props.

(** The executables named by the [Running:] entries, in order. *)
Fixpoint exes_of (evs : list Event) : list string :=
  match evs with
  | [] => []
  | EvRunning _ _ args :: r => nth 0 args "" :: exes_of r
  | _ :: r => exes_of r
  end.

(** A token that is not empty and holds no character marked by [f]. *)
Definition clean (f : ascii -> bool) (t : string) : Prop :=
  truthy t = true /\ existsb f t = false.

(** [s] ends with [suffix]. *)
Definition Suffix (suffix s : string) : Prop := exists pre, s = pre ^^ suffix.

End MoreProps.

(** * Properties *)

(** ** Strings *)

Module PyStrFacts.
Import PyStr.

Lemma app_empty_r (s : string) : s ^^ "" = s.
Proof. induction s as [|c r IH]; simpl; [reflexivity | now rewrite IH]. Qed.

Lemma app_assoc (a b c : string) : (a ^^ b) ^^ c = a ^^ b ^^ c.
Proof. induction a as [|x r IH]; simpl; [reflexivity | now rewrite IH]. Qed.

Lemma lstrip_all (f : ascii -> bool) (s : string) :
  forallb f s = true -> lstrip_by f s = "".
Proof.
  induction s as [|c r IH]; simpl; [reflexivity|].
  intros H. apply andb_true_iff in H as [Hc Hr]. rewrite Hc. auto.
Qed.

(** What [rstrip] cuts off is a run of stripped characters. *)
Lemma rstrip_split (f : ascii -> bool) (s : string) :
  exists t, s = rstrip_by f s ^^ t /\ forallb f t = true.
Proof.
  induction s as [|c r [t [E Ht]]]; simpl.
  - exists "". split; reflexivity.
  - destruct (rstrip_by f r) as [|c' r'] eqn:R.
    + simpl in E. subst t. destruct (f c) eqn:Fc.
      * exists (String c r). simpl. rewrite Fc, Ht. split; reflexivity.
      * exists r. split; [reflexivity | assumption].
    + exists t. simpl in *. split; [now rewrite <- E | assumption].
Qed.

Lemma prefix_spec (n s : string) :
  String.prefix n s = true <-> exists post, s = n ^^ post.
Proof.
  revert s. induction n as [|c n IH]; intros s.
  - split; [intros _; exists s; reflexivity | destruct s; reflexivity].
  - destruct s as [|d s]; simpl.
    + split; [discriminate | intros [post E]; discriminate].
    + destruct (ascii_dec c d) as [->|Hn].
      * rewrite IH. split; intros [post E]; exists post.
        -- now rewrite E.
        -- now inversion E.
      * split; [discriminate|]. intros [post E]. inversion E. congruence.
Qed.

Lemma contains_spec (n s : string) :
  contains n s = true <-> exists pre post, s = pre ^^ n ^^ post.
Proof.
  induction s as [|c r IH].
  - cbn [contains]. rewrite orb_false_r, prefix_spec. split.
    + intros [post E]. exists "", post. exact E.
    + intros [pre [post E]]. destruct pre; [exists post; exact E | discriminate].
  - cbn [contains]. rewrite orb_true_iff, prefix_spec, IH. split.
    + intros [[post E] | [pre [post E]]].
      * exists "", post. exact E.
      * exists (String c pre), post. simpl. now rewrite E.
    + intros [pre [post E]]. destruct pre as [|d pre].
      * left. exists post. exact E.
      * right. exists pre, post. simpl in E. now inversion E.
Qed.

Lemma take_length_app (a b : string) : take (String.length a) (a ^^ b) = a.
Proof. induction a as [|c r IH]; simpl; [now destruct b | now rewrite IH]. Qed.

Lemma drop_length_app (a b : string) : drop (String.length a) (a ^^ b) = b.
Proof. induction a as [|c r IH]; simpl; [reflexivity | exact IH]. Qed.

Lemma existsb_app (f : ascii -> bool) (a b : string) :
  existsb f (a ^^ b) = existsb f a || existsb f b.
Proof. induction a as [|c r IH]; simpl; [reflexivity | now rewrite IH, orb_assoc]. Qed.

(** *** [rfind] *)

Lemma rfind_lower (c : ascii) (s : string) : (-1 <= rfind c s)%Z.
Proof.
  induction s as [|a r IH]; simpl; [lia|].
  destruct (0 <=? rfind c r)%Z eqn:E; [apply Z.leb_le in E; lia|].
  destruct (Ascii.eqb a c); lia.
Qed.

Lemma rfind_absent (c : ascii) (s : string) :
  existsb (Ascii.eqb c) s = false -> rfind c s = (-1)%Z.
Proof.
  induction s as [|a r IH]; simpl; [reflexivity|].
  intros H. apply orb_false_iff in H as [Ha Hr]. rewrite (IH Hr). simpl.
  rewrite Ascii.eqb_sym, Ha. reflexivity.
Qed.

(** Nothing after the last occurrence is an occurrence. *)
Lemma rfind_drop (c : ascii) (s : string) :
  existsb (Ascii.eqb c) (drop (Z.to_nat (rfind c s + 1)) s) = false.
Proof.
  induction s as [|a r IH]; [reflexivity|].
  cbn [rfind]. pose proof (rfind_lower c r) as L.
  destruct (0 <=? rfind c r)%Z eqn:E.
  - apply Z.leb_le in E.
    replace (Z.to_nat (rfind c r + 1 + 1)) with (S (Z.to_nat (rfind c r + 1))) by lia.
    exact IH.
  - apply Z.leb_gt in E. assert (R : rfind c r = (-1)%Z) by lia.
    rewrite R in IH. simpl in IH.
    destruct (Ascii.eqb a c) eqn:A; simpl.
    + destruct r; exact IH.
    + rewrite Ascii.eqb_sym, A. destruct r; exact IH.
Qed.

(** The last occurrence in [a ++ c ++ b] when [b] holds none. *)
Lemma rfind_app_last (c : ascii) (a b : string) :
  existsb (Ascii.eqb c) b = false ->
  rfind c (a ^^ String c b) = Z.of_nat (String.length a).
Proof.
  intros Hb. induction a as [|x r IH].
  - simpl. rewrite (rfind_absent _ _ Hb). simpl. now rewrite Ascii.eqb_refl.
  - cbn [String.append rfind String.length]. rewrite IH.
    destruct (0 <=? Z.of_nat (String.length r))%Z eqn:E; [lia|].
    apply Z.leb_gt in E. lia.
Qed.

Lemma startswith_existsb (c : ascii) (s : string) :
  startswith c s = true -> existsb (Ascii.eqb c) s = true.
Proof.
  destruct s as [|a r]; simpl; [discriminate|].
  intros H. now rewrite Ascii.eqb_sym, H.
Qed.

Lemma startswith_take (c : ascii) (n : nat) (s : string) :
  startswith c (take n s) = true -> startswith c s = true.
Proof. destruct n, s; simpl; auto; discriminate. Qed.

Lemma startswith_app (c : ascii) (a b : string) :
  truthy a = true -> startswith c (a ^^ b) = startswith c a.
Proof. destruct a; [discriminate | reflexivity]. Qed.

End PyStrFacts.

(** ** The payload splitter *)

Module DndFacts.
Import PyStr Dnd Props PyStrFacts.

Lemma scan_app (st : scan_state) (a b : string) :
  scan st (a ^^ b) = scan (scan st a) b.
Proof. revert st. induction a as [|c r IH]; intros st; simpl; auto. Qed.

Lemma space_not_brace (c : ascii) : isspace c = true -> is_brace c = false.
Proof.
  unfold is_brace. intros H.
  destruct (Ascii.eqb c "{") eqn:A; [apply Ascii.eqb_eq in A; subst; discriminate|].
  destruct (Ascii.eqb c "}") eqn:B; [apply Ascii.eqb_eq in B; subst; discriminate|].
  reflexivity.
Qed.

Lemma step_plain (st : scan_state) (ch : ascii) :
  is_brace ch = false -> isspace ch && negb (in_brace st) = false ->
  scan_step st ch = mkScan (out st) (cur st ^^ String ch "") (in_brace st).
Proof.
  unfold is_brace, scan_step. intros B S.
  apply orb_false_iff in B as [-> ->]. now rewrite S.
Qed.

Lemma step_space (st : scan_state) (ch : ascii) :
  isspace ch = true -> in_brace st = false ->
  scan_step st ch = mkScan (flush st) "" false.
Proof.
  intros S I. pose proof (space_not_brace _ S) as B.
  unfold is_brace in B. apply orb_false_iff in B as [B1 B2].
  unfold scan_step. now rewrite B1, B2, S, I.
Qed.

(** Whitespace outside braces only closes the token under construction. *)
Lemma scan_spaces (s : string) (o : list string) (c : string) :
  forallb isspace s = true ->
  let st := scan (mkScan o c false) s in
  in_brace st = false /\ flush st = flush (mkScan o c false).
Proof.
  revert o c. induction s as [|ch r IH]; intros o c H; simpl.
  - split; reflexivity.
  - simpl in H. apply andb_true_iff in H as [Hc Hr].
    rewrite step_space by (assumption || reflexivity).
    destruct (IH (flush (mkScan o c false)) "" Hr) as [I F].
    split; [exact I|]. rewrite F. reflexivity.
Qed.

Lemma scan_gap (s : string) (o : list string) :
  forallb isspace s = true ->
  scan (mkScan o "" false) s = mkScan o "" false.
Proof.
  induction s as [|ch r IH]; intros H; simpl; [reflexivity|].
  simpl in H. apply andb_true_iff in H as [Hc Hr].
  rewrite step_space by (assumption || reflexivity). auto.
Qed.

(** Inside braces everything but a brace is kept. *)
Lemma scan_group_body (g : string) (o : list string) (c : string) :
  existsb is_brace g = false ->
  scan (mkScan o c true) g = mkScan o (c ^^ g) true.
Proof.
  revert c. induction g as [|ch r IH]; intros c H; simpl.
  - now rewrite app_empty_r.
  - simpl in H. apply orb_false_iff in H as [Hc Hr].
    rewrite step_plain by (assumption || (simpl; apply andb_false_r)).
    simpl. rewrite IH, app_assoc by assumption. reflexivity.
Qed.

Lemma scan_word (w : string) (o : list string) (c : string) :
  existsb (fun ch => is_brace ch || isspace ch) w = false ->
  scan (mkScan o c false) w = mkScan o (c ^^ w) false.
Proof.
  revert c. induction w as [|ch r IH]; intros c H; simpl.
  - now rewrite app_empty_r.
  - simpl in H. apply orb_false_iff in H as [Hc Hr].
    apply orb_false_iff in Hc as [Hb Hs].
    rewrite step_plain by (assumption || (simpl; now rewrite Hs)).
    simpl. rewrite IH, app_assoc by assumption. reflexivity.
Qed.

(** An opening brace forgets the token under construction. *)
Lemma scan_open_forgets (o : list string) (c rest : string) :
  scan (mkScan o c false) (String "{" rest) = scan (mkScan o "" false) (String "{" rest).
Proof. reflexivity. Qed.

Lemma scan_group (g rest : string) (o : list string) :
  existsb is_brace g = false ->
  scan (mkScan o "" false) (seg_text (Group g) ^^ rest)
  = scan (mkScan (o ++ if truthy g then [g] else []) "" false) rest.
Proof.
  intros H. cbn [seg_text]. rewrite scan_app. f_equal.
  change ("{" ^^ g ^^ "}") with (String "{" (g ^^ "}")).
  cbn [scan]. change (scan_step (mkScan o "" false) "{") with (mkScan o "" true).
  rewrite scan_app, scan_group_body by assumption.
  unfold scan, scan_step, flush. simpl.
  destruct (truthy g); [reflexivity | now rewrite app_nil_r].
Qed.

Lemma words_maximal_tail (x : Seg) (r : list Seg) :
  words_maximal (x :: r) = true -> words_maximal r = true.
Proof. destruct x; simpl; auto. destruct r as [|[]]; auto; discriminate. Qed.

Lemma well_formed_tail (x : Seg) (r : list Seg) :
  well_formed (x :: r) = true -> seg_ok x = true /\ well_formed r = true.
Proof.
  unfold well_formed. simpl. intros H.
  apply andb_true_iff in H as [H1 H2]. apply andb_true_iff in H1 as [Hx Hr].
  split; [exact Hx|]. now rewrite Hr, (words_maximal_tail _ _ H2).
Qed.

(** The scanner on a well-formed payload. *)
Lemma scan_payload (segs : list Seg) :
  well_formed segs = true ->
  forall o, let st := scan (mkScan o "" false) (payload segs) in
  in_brace st = false /\ flush st = o ++ raw_tokens segs.
Proof.
  induction segs as [|x r IH]; intros WF o.
  - simpl. split; [reflexivity | now rewrite app_nil_r].
  - pose proof WF as WF0.
    apply well_formed_tail in WF as [Hx Hr]. specialize (IH Hr).
    destruct x as [g | w | s]; cbn [payload raw_tokens].
    + simpl in Hx. apply negb_true_iff in Hx.
      rewrite scan_group by assumption.
      destruct (IH (o ++ if truthy g then [g] else [])) as [I F].
      split; [exact I|]. cbv zeta in F. rewrite F. now rewrite <- List.app_assoc.
    + simpl in Hx. apply andb_true_iff in Hx as [Hne Hw].
      apply negb_true_iff in Hw.
      cbn [seg_text]. rewrite scan_app, scan_word by assumption. simpl.
      destruct r as [|[g' | w' | s'] r'].
      * simpl. unfold flush. simpl. rewrite Hne. split; reflexivity.
      * cbn [payload seg_text].
        change (("{" ^^ g' ^^ "}") ^^ payload r')
          with (String "{" ((g' ^^ "}") ^^ payload r')).
        rewrite scan_open_forgets. exact (IH o).
      * unfold well_formed in WF0. simpl in WF0.
        rewrite andb_false_r in WF0. discriminate.
      * apply well_formed_tail in Hr as [Hs _].
        simpl in Hs. apply andb_true_iff in Hs as [Hsne Hsw].
        destruct s' as [|ch s']; [discriminate|].
        pose proof Hsw as Hsw0. simpl in Hsw. apply andb_true_iff in Hsw as [Hch _].
        specialize (IH (o ++ [w])). cbn [payload seg_text raw_tokens] in IH |- *.
        cbn [String.append scan] in IH |- *.
        rewrite step_space in IH |- * by (assumption || reflexivity).
        unfold flush in IH |- *. cbn [cur out truthy is_empty negb] in IH |- *.
        rewrite Hne. cbn [negb].
        destruct IH as [I F]. split; [exact I|].
        rewrite F, <- List.app_assoc. reflexivity.
    + simpl in Hx. apply andb_true_iff in Hx as [_ Hs].
      cbn [seg_text]. rewrite scan_app, scan_gap by assumption.
      exact (IH o).
Qed.

(** [strip] makes no difference when the payload ends outside braces. *)
Lemma scan_lstrip (s : string) (o : list string) :
  scan (mkScan o "" false) (lstrip_by isspace s) = scan (mkScan o "" false) s.
Proof.
  induction s as [|ch r IH]; simpl; [reflexivity|].
  destruct (isspace ch) eqn:S; [|reflexivity].
  rewrite step_space by (assumption || reflexivity). exact IH.
Qed.

Lemma scan_spaces_keep_brace (s : string) (st : scan_state) :
  forallb isspace s = true -> in_brace (scan st s) = in_brace st.
Proof.
  revert st. induction s as [|ch r IH]; intros st H; simpl; [reflexivity|].
  simpl in H. apply andb_true_iff in H as [Hc Hr]. rewrite IH by assumption.
  pose proof (space_not_brace _ Hc) as B. unfold is_brace in B.
  apply orb_false_iff in B as [B1 B2].
  unfold scan_step. rewrite B1, B2, Hc. simpl. destruct (in_brace st); reflexivity.
Qed.

Lemma flush_strip (s : string) :
  in_brace (scan (mkScan [] "" false) s) = false ->
  flush (scan (mkScan [] "" false) (strip s)) = flush (scan (mkScan [] "" false) s).
Proof.
  intros I. unfold strip. rewrite <- (scan_lstrip s) in I |- *.
  set (l := lstrip_by isspace s) in *.
  destruct (rstrip_split isspace l) as [t [E Ht]].
  rewrite E in I at 1. rewrite E at 2. rewrite scan_app in I |- *.
  rewrite scan_spaces_keep_brace in I by assumption.
  destruct (scan (mkScan [] "" false) (rstrip_by isspace l)) as [o1 c1 b1].
  simpl in I. subst b1. symmetry. apply (scan_spaces t o1 c1 Ht).
Qed.

(** Every payload with balanced braces is made of groups, words and
    gaps. *)
Lemma push_char_payload (c : ascii) (segs : list Seg) :
  payload (push_char c segs) = String c (payload segs).
Proof.
  unfold push_char. destruct (isspace c); destruct segs as [|[g|w|s] t]; reflexivity.
Qed.

Lemma push_char_well_formed (c : ascii) (segs : list Seg) :
  is_brace c = false -> well_formed segs = true ->
  well_formed (push_char c segs) = true.
Proof.
  unfold well_formed, push_char. intros B H.
  destruct (isspace c) eqn:S; destruct segs as [|[g|w|s] t]; simpl in *;
    repeat match goal with
      | X : _ && _ = true |- _ => apply andb_true_iff in X; destruct X
      | X : negb _ = true |- _ => apply negb_true_iff in X
      end;
    rewrite ?B, ?S; simpl;
    repeat match goal with X : _ = _ |- _ => rewrite X end;
    reflexivity.
Qed.

Lemma segments_from_spec (s : string) :
  forall inside, balanced_from inside s = true ->
    well_formed (snd (segments_from s)) = true
    /\ if inside
       then exists body, fst (segments_from s) = Some body
                         /\ existsb is_brace body = false
                         /\ s = body ^^ "}" ^^ payload (snd (segments_from s))
       else fst (segments_from s) = None /\ s = payload (snd (segments_from s)).
Proof.
  induction s as [|c r IH]; intros inside H.
  - destruct inside; [discriminate|]. repeat split.
  - cbn [balanced_from] in H. cbn [segments_from].
    destruct (Ascii.eqb c "{") eqn:O.
    + apply Ascii.eqb_eq in O. subst c.
      apply andb_true_iff in H as [Hi Hr]. destruct inside; [discriminate|].
      destruct (IH true Hr) as [WF [body [G [Hb E]]]].
      destruct (segments_from r) as [g segs]. simpl in G, E, WF. subst g.
      simpl. split; [|split; [reflexivity|]].
      * unfold well_formed in *. simpl. now rewrite Hb.
      * rewrite E at 1. now rewrite app_assoc.
    + destruct (Ascii.eqb c "}") eqn:C.
      * apply Ascii.eqb_eq in C. subst c.
        apply andb_true_iff in H as [Hi Hr]. destruct inside; [|discriminate].
        destruct (IH false Hr) as [WF [G E]].
        destruct (segments_from r) as [g segs]. simpl in G, E, WF. subst g.
        simpl. split; [exact WF|]. exists "". repeat split. now rewrite E at 1.
      * assert (B : is_brace c = false) by (unfold is_brace; now rewrite O, C).
        destruct inside.
        -- destruct (IH true H) as [WF [body [G [Hb E]]]].
           destruct (segments_from r) as [g segs]. simpl in G, E, WF. subst g.
           simpl. split; [exact WF|].
           exists (String c body). simpl. rewrite B, Hb. repeat split.
           now rewrite E at 1.
        -- destruct (IH false H) as [WF [G E]].
           destruct (segments_from r) as [g segs]. simpl in G, E, WF. subst g.
           simpl. split; [now apply push_char_well_formed|].
           split; [reflexivity|]. rewrite push_char_payload. now rewrite E at 1.
Qed.

Lemma split_unfold (data : string) :
  _split_dnd_files data = map unescape (flush (scan (mkScan [] "" false) (strip data))).
Proof. unfold _split_dnd_files. destruct data; reflexivity. Qed.

End DndFacts.

(** C10 (as amended). A blank payload yields no token.  Every payload
    whose braces are balanced and not nested is made of brace groups,
    words (maximal runs without whitespace outside braces) and
    whitespace gaps; on such a payload the splitter returns, in order,
    one token per non-empty group, whitespace included, none for an
    empty group, and one token per word, except that a word directly
    followed by an opening brace is dropped; doubled backslashes are
    halved in every token. *)
Theorem split_dnd_files_tokens :
  (forall data, PyStr.forallb PyStr.isspace data = true ->
     Dnd._split_dnd_files data = [])
  /\ (forall segs, Props.well_formed segs = true ->
        Dnd._split_dnd_files (Props.payload segs) = Props.tokens segs)
  /\ (forall data, Props.balanced data = true ->
        Props.well_formed (Props.segments data) = true
        /\ Props.payload (Props.segments data) = data
        /\ Dnd._split_dnd_files data = Props.tokens (Props.segments data)).
Proof.
  assert (T : forall segs, Props.well_formed segs = true ->
                Dnd._split_dnd_files (Props.payload segs) = Props.tokens segs).
  { intros segs WF. rewrite DndFacts.split_unfold.
    destruct (DndFacts.scan_payload segs WF []) as [I F].
    rewrite DndFacts.flush_strip by exact I.
    cbv zeta in F. rewrite F. reflexivity. }
  split; [|split; [exact T|]].
  - intros data H. rewrite DndFacts.split_unfold. unfold PyStr.strip.
    now rewrite (PyStrFacts.lstrip_all _ _ H).
  - intros data B.
    destruct (DndFacts.segments_from_spec data false B) as [WF [_ E]].
    fold (Props.segments data) in WF, E.
    split; [exact WF|]. split; [now rewrite <- E|].
    rewrite E at 1. now apply T.
Qed.

Lemma split_dnd_files_tokens_witness :
  Dnd._split_dnd_files "  	 " = []
  /\ Dnd._split_dnd_files "{/tmp/my logs/a b.log} /tmp/c.log  {} C:\\logs\\d.log"
     = ["/tmp/my logs/a b.log"; "/tmp/c.log"; "C:\logs\d.log"]
  /\ Dnd._split_dnd_files "{/tmp/a b.log}/tmp/c.log x{/tmp/d.log}"
     = Props.tokens [Props.Group "/tmp/a b.log"; Props.Word "/tmp/c.log";
                     Props.Space " "; Props.Word "x"; Props.Group "/tmp/d.log"].
Proof.
  split; [|split].
  - apply (proj1 split_dnd_files_tokens). reflexivity.
  - apply (proj1 (proj2 split_dnd_files_tokens)
             [Props.Group "/tmp/my logs/a b.log"; Props.Space " ";
              Props.Word "/tmp/c.log"; Props.Space "  "; Props.Group "";
              Props.Space " "; Props.Word "C:\\logs\\d.log"]).
    reflexivity.
  - apply (proj2 (proj2 split_dnd_files_tokens)
             "{/tmp/a b.log}/tmp/c.log x{/tmp/d.log}").
    reflexivity.
Defined.

(** C10 (as stated) fails: in the payload [a{b}] the run [a] lies outside
    the braces, yet the only token returned is [b]. *)
Lemma split_dnd_files_word_before_brace :
  let segs := [Props.Word "a"; Props.Group "b"] in
  Props.well_formed segs = true
  /\ Props.payload segs = "a{b}"
  /\ Dnd._split_dnd_files (Props.payload segs) = ["b"]
  /\ Props.claimed_tokens segs = ["a"; "b"]
  /\ Dnd._split_dnd_files (Props.payload segs) <> Props.claimed_tokens segs.
Proof. repeat split; try reflexivity. discriminate. Qed.

(** ** Output paths *)

Module PathFacts.
Import PyStr PosixPath App Props PyStrFacts.

Lemma basename_no_sep (p : string) : has_char sep (basename p) = false.
Proof. apply rfind_drop. Qed.

Lemma basename_of_name (b : string) : has_char sep b = false -> basename b = b.
Proof.
  intros H. unfold basename, after_last_sep. rewrite (rfind_absent _ _ H).
  now destruct b.
Qed.

Lemma drop_past (a b : string) (c : ascii) :
  drop (S (String.length a)) (a ^^ String c b) = b.
Proof. induction a as [|x r IH]; simpl; [now destruct b | exact IH]. Qed.

Lemma basename_in_dir (dir b : string) :
  has_char sep b = false -> basename (dir ^^ String sep b) = b.
Proof.
  intros H. unfold basename, after_last_sep.
  rewrite (rfind_app_last _ dir b H).
  replace (Z.to_nat (Z.of_nat (String.length dir) + 1)) with (S (String.length dir)) by lia.
  apply drop_past.
Qed.

(** The extension is what follows the last dot. *)
Lemma splitext_name (x e : string) :
  has_char sep x = false -> has_char sep e = false -> has_char extsep e = false ->
  existsb (fun c => negb (Ascii.eqb c extsep)) x = true ->
  splitext (x ^^ String extsep e) = (x, String extsep e).
Proof.
  unfold has_char. intros Hx He Hd Hn. unfold splitext.
  assert (S0 : rfind sep (x ^^ String extsep e) = (-1)%Z).
  { apply rfind_absent. rewrite existsb_app, Hx. simpl. exact He. }
  rewrite S0, (rfind_app_last _ x e Hd), Nat2Z.id.
  unfold slice. simpl (Z.to_nat (-1 + 1)). rewrite Nat.sub_0_r.
  replace (drop 0 (x ^^ String extsep e)) with (x ^^ String extsep e)
    by (now destruct (x ^^ String extsep e)).
  rewrite take_length_app, drop_length_app, Hn.
  destruct (-1 <? Z.of_nat (String.length x))%Z eqn:E; [reflexivity|].
  apply Z.ltb_ge in E. lia.
Qed.

(** The output name never starts with a separator. *)
Lemma outname_relative (p : string) : startswith sep (stem p ^^ ".json") = false.
Proof.
  destruct (stem p) as [|c r] eqn:E; [reflexivity|].
  rewrite startswith_app by reflexivity. rewrite <- E.
  destruct (startswith sep (stem p)) eqn:S; [|reflexivity].
  exfalso. pose proof (basename_no_sep p) as B.
  assert (startswith sep (basename p) = true) as S'.
  { revert S. unfold stem, splitext.
    destruct (_ && _); simpl; [apply startswith_take | auto]. }
  apply startswith_existsb in S'. unfold has_char in B. congruence.
Qed.

Lemma output_path_unfold (d p : string) :
  _output_path_for d p
  = PosixPath.join (if truthy (strip d) then strip d else dirname p) (stem p ^^ ".json").
Proof.
  unfold _output_path_for, stem.
  destruct (splitext (basename p)) as [s e]. reflexivity.
Qed.

(** With an output folder set, only the base name of the input counts. *)
Lemma output_path_same_basename (d p1 p2 : string) :
  truthy (strip d) = true -> basename p1 = basename p2 ->
  _output_path_for d p1 = _output_path_for d p2.
Proof.
  intros T B. rewrite !output_path_unfold, T. unfold stem. now rewrite B.
Qed.

End PathFacts.

(** C7 (as amended). The output path is a function of the folder text
    [d] and the input path [p] alone: [os.path.join(dir, stem(p) + ".json")]
    where [dir] is [d] trimmed when that is not empty and [dirname(p)]
    otherwise.  The join puts one [/] between the two parts unless [dir]
    is empty or already ends in [/]; so a bare file name resolves to
    [stem(p) + ".json"] with no leading [/].  The stem drops the last
    extension only: dots inside the base name stay. *)
Theorem output_path_for_resolved :
  (forall d p,
     let name := Props.stem p ^^ ".json" in
     let dir := if PyStr.truthy (PyStr.strip d) then PyStr.strip d
                else PosixPath.dirname p in
     App._output_path_for d p
     = if PyStr.is_empty dir || PyStr.endswith "/" dir then dir ^^ name
       else dir ^^ "/" ^^ name)
  /\ (forall dir x e,
        Props.has_char "/" x = false -> Props.has_char "/" e = false ->
        Props.has_char "." e = false ->
        PyStr.existsb (fun c => negb (Ascii.eqb c ".")) x = true ->
        Props.stem (x ^^ "." ^^ e) = x /\ Props.stem (dir ^^ "/" ^^ x ^^ "." ^^ e) = x).
Proof.
  split.
  - intros d p name dir. rewrite PathFacts.output_path_unfold.
    fold dir. fold name. unfold PosixPath.join.
    unfold name at 1. rewrite PathFacts.outname_relative. reflexivity.
  - intros dir x e Hx He Hd Hn.
    assert (B : Props.has_char "/" (x ^^ "." ^^ e) = false).
    { unfold Props.has_char in *. rewrite PyStrFacts.existsb_app, Hx.
      simpl. exact He. }
    unfold Props.stem. split.
    + rewrite PathFacts.basename_of_name by exact B.
      change (x ^^ "." ^^ e) with (x ^^ String PosixPath.extsep e).
      now rewrite PathFacts.splitext_name.
    + change (dir ^^ "/" ^^ x ^^ "." ^^ e)
        with (dir ^^ String PosixPath.sep (x ^^ "." ^^ e)).
      rewrite PathFacts.basename_in_dir by exact B.
      change (x ^^ "." ^^ e) with (x ^^ String PosixPath.extsep e).
      now rewrite PathFacts.splitext_name.
Qed.

Lemma output_path_for_resolved_witness :
  App._output_path_for "  " "/logs/run.2024.jsonl" = "/logs/run.2024.json"
  /\ App._output_path_for " /out " "/logs/run.2024.jsonl" = "/out/run.2024.json"
  /\ Props.stem ("/logs" ^^ "/" ^^ "run.2024" ^^ "." ^^ "jsonl") = "run.2024".
Proof.
  split; [|split].
  - rewrite (proj1 output_path_for_resolved). reflexivity.
  - rewrite (proj1 output_path_for_resolved). reflexivity.
  - apply (proj2 output_path_for_resolved "/logs" "run.2024" "jsonl"); reflexivity.
Defined.

(** C7 (as stated) fails: for the bare file name [a.jsonl] and no output
    folder the code yields [a.json], not [dirname + "/" + stem + ".json"],
    which would be [/a.json]. *)
Lemma output_path_for_bare_name :
  let p := "a.jsonl" in
  let d := "" in
  PyStr.strip d = ""
  /\ App._output_path_for d p = "a.json"
  /\ PosixPath.dirname p ^^ "/" ^^ Props.stem p ^^ ".json" = "/a.json"
  /\ App._output_path_for d p <> PosixPath.dirname p ^^ "/" ^^ Props.stem p ^^ ".json".
Proof. repeat split; try reflexivity. discriminate. Qed.

(** C9. Output-path resolution is not injective: two different inputs
    with the same base name in different folders resolve, under a
    non-empty output folder, to one and the same path; a run over the
    two of them, one after the other, hands that one path to both
    launches. *)
Theorem output_path_for_not_injective :
  exists p1 p2 d,
    p1 <> p2
    /\ PosixPath.basename p1 = PosixPath.basename p2
    /\ PosixPath.dirname p1 <> PosixPath.dirname p2
    /\ PyStr.truthy (PyStr.strip d) = true
    /\ App._output_path_for d p1 = App._output_path_for d p2
    /\ map (fun args => nth 5 args "")
         (Demo.d_launched
            (Demo.world_of
               (Demo.demo_worker "acars_parser" [p1; p2] (Demo.start_in d [p1; p2]))))
       = [App._output_path_for d p1; App._output_path_for d p1].
Proof.
  exists "/a/x.log", "/b/x.log", "/out".
  repeat split; try reflexivity; discriminate.
Qed.

(** ** The queue worker *)

Module WorkerFacts.
Import PyStr App Props PyStrFacts.

Lemma invocation_input (exe inp outp : string) (p a s : bool) :
  nth_error (invocation exe inp outp p a s) 3 = Some inp.
Proof. reflexivity. Qed.

Lemma invocation_flags (exe inp outp : string) (p a s : bool) :
  skipn 6 (invocation exe inp outp p a s)
  = optional "-pretty" p ++ optional "-all" a ++ optional "-stats" s.
Proof. reflexivity. Qed.

(** Dropping [-stats] by value leaves the other arguments alone as long
    as none of the three paths is spelled [-stats]. *)
Lemma without_stats_invocation (exe inp outp : string) (p a s : bool) :
  exe <> "-stats" -> inp <> "-stats" -> outp <> "-stats" ->
  without_stats (invocation exe inp outp p a s) = invocation exe inp outp p a false.
Proof.
  intros He Hi Ho. unfold without_stats, invocation. cbn [app filter].
  apply String.eqb_neq in He, Hi, Ho. rewrite He, Hi, Ho.
  destruct p, a, s; reflexivity.
Qed.

Lemma inputs_of_app (a b : list Event) :
  inputs_of (a ++ b) = inputs_of a ++ inputs_of b.
Proof.
  induction a as [|e r IH]; [reflexivity|].
  destruct e; simpl; rewrite IH; reflexivity.
Qed.

Lemma inputs_of_progress (body : list Event) :
  List.forallb is_progress body = true -> inputs_of body = [].
Proof.
  induction body as [|e r IH]; [reflexivity|]. simpl.
  intros H. apply andb_true_iff in H as [He Hr].
  destruct e; try discriminate; auto.
Qed.

Lemma inputs_of_result (r : list Event) : result_block r -> inputs_of r = [].
Proof. now destruct 1. Qed.

Lemma inputs_of_segment (total idx : nat) (inp : string) (seg : list Event) :
  item_segment total (idx, inp) seg -> inputs_of seg = [inp].
Proof.
  inversion 1 as [i n args body r Hn Hb Hr]; subst. simpl.
  rewrite inputs_of_app, (inputs_of_progress _ Hb), (inputs_of_result _ Hr).
  simpl. f_equal. destruct args as [|? [|? [|? [|? ?]]]]; try discriminate.
  now inversion Hn.
Qed.

Lemma inputs_of_segments (total : nat) (items : list string) :
  forall idx segs,
    Forall2 (item_segment total) (enumerate idx items) segs ->
    inputs_of (List.concat segs) = items.
Proof.
  induction items as [|inp r IH]; intros idx segs F; inversion F; subst.
  - reflexivity.
  - simpl. rewrite inputs_of_app, (inputs_of_segment _ _ _ _ H1).
    simpl. f_equal. eauto.
Qed.

Lemma results_of_progress (body : list Event) :
  List.forallb is_progress body = true -> filter is_item_result body = [].
Proof.
  induction body as [|e r IH]; [reflexivity|]. simpl.
  intros H. apply andb_true_iff in H as [He Hr].
  destruct e; try discriminate; auto.
Qed.

Lemma dones_of_progress (body : list Event) :
  List.forallb is_progress body = true -> filter is_done body = [].
Proof.
  induction body as [|e r IH]; [reflexivity|]. simpl.
  intros H. apply andb_true_iff in H as [He Hr].
  destruct e; try discriminate; auto.
Qed.

(** A segment holds one result and no [Done.] entry. *)
Lemma segment_counts (total : nat) (x : nat * string) (seg : list Event) :
  item_segment total x seg ->
  List.length (filter is_item_result seg) = 1 /\ filter is_done seg = [].
Proof.
  inversion 1 as [i n args body r Hn Hb Hr]; subst. simpl.
  rewrite !filter_app, (results_of_progress _ Hb), (dones_of_progress _ Hb).
  destruct Hr; split; reflexivity.
Qed.

Lemma segments_counts (total : nat) (xs : list (nat * string)) (segs : list (list Event)) :
  Forall2 (item_segment total) xs segs ->
  List.length (filter is_item_result (List.concat segs)) = List.length xs
  /\ filter is_done (List.concat segs) = [].
Proof.
  induction 1 as [|x seg xs segs Hs _ [IH1 IH2]]; [split; reflexivity|].
  destruct (segment_counts _ _ _ Hs) as [C1 C2]. simpl.
  rewrite !filter_app, length_app, C1, C2, IH1, IH2. split; reflexivity.
Qed.

Lemma enumerate_length (items : list string) (idx : nat) :
  List.length (enumerate idx items) = List.length items.
Proof. revert idx. induction items; intros; simpl; auto. Qed.

Section Facts.

Variable W : Type.
Variable gui : W -> Gui.
Variable path_exists : string -> W -> bool.
Variable step : W -> W.
Variable spawn : list string -> W -> Proc * W.

Local Abbreviation build_args := (App.build_args W gui step).
Local Abbreviation run_with_fallback := (App.run_with_fallback W gui step spawn).
Local Abbreviation report := (App.report W path_exists step).
Local Abbreviation process_item := (App.process_item W gui path_exists step spawn).
Local Abbreviation for_items := (App.for_items W gui path_exists step spawn).
Local Abbreviation worker := (App.worker W gui path_exists step spawn).
Local Abbreviation run_queue := (App.run_queue W gui path_exists step spawn).
Local Abbreviation closing := (App.closing W path_exists step).

Lemma stream_collect_eq (lines : list string) (combined : string) (w : W) :
  stream_collect W combined lines w
  = (Val (combined ^^ String.concat "" lines), w, map EvLine lines).
Proof.
  revert combined. induction lines as [|l r IH]; intros combined.
  - simpl. unfold ret. now rewrite app_empty_r.
  - cbn [stream_collect]. unfold bind, _append. rewrite IH.
    simpl. f_equal. f_equal. f_equal.
    destruct r; [now rewrite app_empty_r | now rewrite app_assoc].
Qed.

Lemma stream_only_eq (lines : list string) (w : W) :
  stream_only W lines w = (Val tt, w, map EvLine lines).
Proof.
  induction lines as [|l r IH]; [reflexivity|].
  cbn [stream_only]. unfold bind, _append. now rewrite IH.
Qed.

Lemma build_args_eq (exe inp outp : string) (w : W) :
  let w1 := step w in
  let w2 := step w1 in
  let w3 := step w2 in
  build_args exe inp outp w
  = (Val (invocation exe inp outp (pretty_var (gui w1)) (all_var (gui w2))
                     (stats_var (gui w3))), w3, []).
Proof.
  unfold App.build_args, bind, get, ret, invocation, optional. simpl.
  destruct (pretty_var _), (all_var _), (stats_var _); reflexivity.
Qed.

Lemma run_with_fallback_eq (args : list string) (w : W) :
  run_with_fallback args w =
  let '(p, w1) := spawn args w in
  let lines1 := map EvLine (p_lines p) in
  match p_end p with
  | Raised msg => (Exc msg, w1, lines1)
  | Exited rc =>
      if (rc =? 0)%Z then (Val rc, w1, lines1)
      else
        let w2 := step w1 in
        if stats_var (gui w2) && contains stats_marker (String.concat "" (p_lines p))
        then
          let args2 := without_stats args in
          let '(p2, w3) := spawn args2 w2 in
          (end_result p2, w3,
           lines1 ++ [EvInfo; EvRetry args2] ++ map EvLine (p_lines p2))
        else (Val rc, w2, lines1)
  end.
Proof.
  unfold App.run_with_fallback, bind at 1, Popen.
  destruct (spawn args w) as [p w1]. cbv zeta.
  unfold bind at 1. rewrite stream_collect_eq. cbn [String.append].
  unfold bind at 1, wait. destruct (p_end p) as [rc | msg] eqn:E.
  - unfold ret at 1. unfold bind at 1, should_retry.
    destruct (rc =? 0)%Z eqn:Z0; cbn [negb].
    + unfold ret. now rewrite !app_nil_r.
    + unfold bind at 1, get. cbv zeta. unfold ret at 1.
      destruct (stats_var (gui (step w1)) && contains stats_marker _) eqn:C.
      * unfold bind, _append, Popen.
        destruct (spawn (without_stats args) (step w1)) as [p2 w3].
        rewrite stream_only_eq. unfold App.end_result, wait, ret, raise.
        destruct (p_end p2); simpl; rewrite ?app_nil_r; reflexivity.
      * unfold ret. now rewrite !app_nil_r.
  - unfold raise. now rewrite app_nil_r.
Qed.

Lemma run_with_fallback_progress (args : list string) (w : W) :
  List.forallb is_progress (snd (run_with_fallback args w)) = true.
Proof.
  rewrite run_with_fallback_eq. destruct (spawn args w) as [p w1]. cbv zeta.
  assert (L : forall ls, List.forallb is_progress (map EvLine ls) = true)
    by (induction ls; simpl; auto).
  destruct (p_end p) as [rc | msg]; [|apply L].
  destruct (rc =? 0)%Z; [apply L|].
  destruct (_ && _); [|apply L].
  destruct (spawn _ _) as [p2 w3]. simpl.
  rewrite forallb_app, L. simpl. apply L.
Qed.

Lemma report_eq (rc : Z) (outp : string) (w : W) :
  report rc outp w =
  if (rc =? 0)%Z then
    (Val tt, step w,
     if path_exists outp (step w) then [EvOk outp] else [EvFail rc; EvExpected outp])
  else (Val tt, w, [EvFail rc; EvExpected outp]).
Proof.
  unfold App.report, bind, exists_, ret, _append.
  destruct (rc =? 0)%Z; [destruct (path_exists outp (step w))|]; reflexivity.
Qed.

Lemma closing_result_block (r : Res Z) (outp : string) (w : W) :
  result_block (closing r outp w).
Proof. destruct r; simpl; [destruct (_ && _)|]; constructor. Qed.

Lemma process_item_eq (exe : string) (total idx : nat) (inp : string) (w : W) :
  forall outp args wa r wb evs,
    outp = _output_path_for (outdir_var (gui (step w))) inp ->
    build_args exe inp outp (step w) = (Val args, wa, []) ->
    run_with_fallback args wa = (r, wb, evs) ->
    process_item exe total idx inp w
    = (Val tt,
       match r with
       | Val rc => if (rc =? 0)%Z then step wb else wb
       | Exc _ => wb
       end,
       EvRunning idx total args :: evs ++ closing r outp wb).
Proof.
  intros outp args wa r wb evs -> B R.
  unfold App.process_item, bind at 1, get. cbv zeta.
  unfold bind at 1. rewrite B. unfold bind at 1, _append at 1.
  unfold try_except, bind at 1. rewrite R.
  destruct r as [rc | msg].
  - rewrite report_eq. unfold App.closing.
    destruct (rc =? 0)%Z; reflexivity.
  - reflexivity.
Qed.

Lemma process_item_segment (exe : string) (total idx : nat) (inp : string) (w : W) :
  exists w' seg,
    process_item exe total idx inp w = (Val tt, w', seg)
    /\ item_segment total (idx, inp) seg.
Proof.
  pose proof (build_args_eq exe inp
                (_output_path_for (outdir_var (gui (step w))) inp) (step w)) as B.
  cbv zeta in B.
  destruct (run_with_fallback
              (invocation exe inp (_output_path_for (outdir_var (gui (step w))) inp)
                 (pretty_var (gui (step (step w))))
                 (all_var (gui (step (step (step w)))))
                 (stats_var (gui (step (step (step (step w)))))))
              (step (step (step (step w))))) as [[r wb] evs] eqn:R.
  pose proof (process_item_eq exe total idx inp w _ _ _ _ _ _ eq_refl B R) as E.
  eexists. eexists. split; [exact E|].
  constructor.
  - apply invocation_input.
  - pose proof (run_with_fallback_progress
                  (invocation exe inp (_output_path_for (outdir_var (gui (step w))) inp)
                     (pretty_var (gui (step (step w))))
                     (all_var (gui (step (step (step w)))))
                     (stats_var (gui (step (step (step (step w)))))))
                  (step (step (step (step w))))) as P.
    rewrite R in P. exact P.
  - apply closing_result_block.
Qed.

Lemma for_items_segments (exe : string) (total : nat) (items : list string) :
  forall idx w, exists w' segs,
    for_items exe total idx items w = (Val tt, w', List.concat segs)
    /\ Forall2 (item_segment total) (enumerate idx items) segs.
Proof.
  induction items as [|inp r IH]; intros idx w.
  - exists w, []. split; [reflexivity | constructor].
  - destruct (process_item_segment exe total idx inp w) as [w1 [seg [E S]]].
    destruct (IH (Datatypes.S idx) w1) as [w2 [segs [E2 F]]].
    exists w2, (seg :: segs). split; [|constructor; assumption].
    cbn [App.for_items]. unfold bind. rewrite E, E2. reflexivity.
Qed.

Lemma for_items_app (exe : string) (total : nat) (a b : list string) :
  forall idx w w1 e1 w2 e2,
    for_items exe total idx a w = (Val tt, w1, e1) ->
    for_items exe total (idx + List.length a) b w1 = (Val tt, w2, e2) ->
    for_items exe total idx (a ++ b) w = (Val tt, w2, e1 ++ e2).
Proof.
  induction a as [|x r IH]; intros idx w w1 e1 w2 e2 A B.
  - simpl in *. inversion A; subst. now rewrite Nat.add_0_r in B.
  - cbn [App.for_items app] in *. unfold bind in *.
    destruct (process_item exe total idx x w) as [[rx wx] ex].
    destruct rx as [[]|msg]; [|discriminate].
    destruct (for_items exe total (Datatypes.S idx) r wx) as [[rr wr] er] eqn:R.
    inversion A; subst.
    simpl in B. rewrite <- Nat.add_succ_comm in B.
    rewrite (IH _ _ _ _ _ _ R B). now rewrite List.app_assoc.
Qed.

Lemma worker_eq (exe : string) (items : list string) (w : W) :
  forall w' evs,
    for_items exe (List.length items) 1 items w = (Val tt, w', evs) ->
    worker exe items w = (Val tt, w', evs ++ [EvDone]).
Proof. intros w' evs E. unfold App.worker, bind, _append. now rewrite E. Qed.

End Facts.

End WorkerFacts.

Module Orchestrator.
Import PyStr App Props PyStrFacts WorkerFacts.

Section Claims.

Variable W : Type.
Variable gui : W -> Gui.
Variable path_exists : string -> W -> bool.
Variable step : W -> W.
Variable spawn : list string -> W -> Proc * W.

Local Abbreviation build_args := (App.build_args W gui step).
Local Abbreviation run_with_fallback := (App.run_with_fallback W gui step spawn).
Local Abbreviation process_item := (App.process_item W gui path_exists step spawn).
Local Abbreviation for_items := (App.for_items W gui path_exists step spawn).
Local Abbreviation worker := (App.worker W gui path_exists step spawn).
Local Abbreviation run_queue := (App.run_queue W gui path_exists step spawn).
Local Abbreviation closing := (App.closing W path_exists step).

(** C1. The entries of an item are its announcement, the progress
    entries of its runs and the closing entries; success is reported
    exactly when the runs ended with exit code zero and the output path
    exists once the last process has exited.  An exit code of zero with
    the output missing is reported as [[FAIL]]. *)
Theorem item_success_iff
    (exe : string) (total idx : nat) (inp : string) (w : W)
    (outp : string) (args : list string) (wa : W) (r : Res Z) (wb : W)
    (evs : list Event) :
  outp = _output_path_for (outdir_var (gui (step w))) inp ->
  build_args exe inp outp (step w) = (Val args, wa, []) ->
  run_with_fallback args wa = (r, wb, evs) ->
  let entries := snd (process_item exe total idx inp w) in
  entries = EvRunning idx total args :: evs ++ closing r outp wb
  /\ List.forallb is_progress evs = true
  /\ (reports_success entries = true
      <-> r = Val 0%Z /\ path_exists outp (step wb) = true)
  /\ (r = Val 0%Z -> path_exists outp (step wb) = false ->
      closing r outp wb = [EvFail 0; EvExpected outp]
      /\ reports_success entries = false).
Proof.
  intros Ho B R entries.
  assert (E : entries = EvRunning idx total args :: evs ++ closing r outp wb).
  { unfold entries. now rewrite (process_item_eq W gui path_exists step spawn exe total idx inp w _ _ _ _ _ _ Ho B R). }
  assert (P : List.forallb is_progress evs = true).
  { pose proof (run_with_fallback_progress W gui step spawn args wa) as P.
    now rewrite R in P. }
  assert (N : List.existsb is_success evs = false).
  { clear - P. induction evs as [|e l IH]; [reflexivity|]. simpl in *.
    apply andb_true_iff in P as [Pe Pl]. rewrite (IH Pl).
    destruct e; try discriminate; reflexivity. }
  assert (S : reports_success entries
              = match r with
                | Val rc => (rc =? 0)%Z && path_exists outp (step wb)
                | Exc _ => false
                end).
  { rewrite E. unfold reports_success. cbn [List.existsb is_success orb].
    rewrite List.existsb_app, N. cbn [orb]. unfold App.closing.
    destruct r as [rc|msg]; [|reflexivity].
    destruct (_ && _); reflexivity. }
  split; [exact E|]. split; [exact P|]. split.
  - rewrite S. destruct r as [rc|msg].
    + rewrite andb_true_iff, Z.eqb_eq. split.
      * intros [-> X]. split; [reflexivity | exact X].
      * intros [X Y]. inversion X. split; [reflexivity | exact Y].
    + split; [discriminate | intros [X _]; discriminate].
  - intros -> X. rewrite S. unfold App.closing. rewrite X. split; reflexivity.
Qed.

(** C2. A second run is started exactly when the first run ended with
    an exit code [rc] that is not zero, the stats check box is set at
    that moment and the collected output contains the marker
    [flag provided but not defined: -stats]; otherwise the first run is
    the only one. *)
Theorem retry_iff
    (args : list string) (w : W) (p : Proc) (w1 : W) :
  spawn args w = (p, w1) ->
  let combined := String.concat "" (p_lines p) in
  let run := run_with_fallback args w in
  let retried := List.existsb is_retry (snd run) in
  stats_marker = "flag provided but not defined: -stats"
  /\ (retried = true
      <-> exists rc, p_end p = Exited rc
                     /\ stats_var (gui (step w1)) = true /\ rc <> 0%Z
                     /\ Substring stats_marker combined)
  /\ (retried = true ->
      let second := spawn (without_stats args) (step w1) in
      run = (end_result (fst second), snd second,
             map EvLine (p_lines p)
             ++ [EvInfo; EvRetry (without_stats args)]
             ++ map EvLine (p_lines (fst second))))
  /\ (retried = false ->
      run = (end_result p,
             match p_end p with
             | Exited rc => if (rc =? 0)%Z then w1 else step w1
             | Raised _ => w1
             end,
             map EvLine (p_lines p))).
Proof.
  intros Sp combined run retried. split; [reflexivity|].
  assert (L : forall ls, List.existsb is_retry (map EvLine ls) = false)
    by (induction ls; simpl; auto).
  unfold retried, run, end_result. rewrite run_with_fallback_eq, Sp. cbv zeta.
  unfold Substring. setoid_rewrite <- contains_spec. fold combined.
  destruct (p_end p) as [rc | msg].
  - destruct (rc =? 0)%Z eqn:Z0.
    + apply Z.eqb_eq in Z0. cbn [snd]. rewrite L. split; [|split].
      * split; [discriminate|]. intros [rc' [E [_ [X _]]]]. inversion E. congruence.
      * discriminate.
      * reflexivity.
    + apply Z.eqb_neq in Z0.
      destruct (stats_var (gui (step w1))) eqn:St; cbn [andb].
      * destruct (contains stats_marker combined) eqn:C.
        -- destruct (spawn (without_stats args) (step w1)) as [p2 w3] eqn:S2.
           cbn [snd fst]. rewrite List.existsb_app, L.
           cbn [orb List.existsb app is_retry].
           split; [|split].
           ++ split; [|reflexivity]. intros _. exists rc. auto.
           ++ reflexivity.
           ++ discriminate.
        -- cbn [snd]. rewrite L. split; [|split].
           ++ split; [discriminate|]. intros [rc' [E [_ [_ X]]]]. discriminate.
           ++ discriminate.
           ++ reflexivity.
      * cbn [snd]. rewrite L. split; [|split].
        -- split; [discriminate|]. intros [rc' [E [X _]]]. discriminate.
        -- discriminate.
        -- reflexivity.
  - cbn [snd]. rewrite L. split; [|split].
    + split; [discriminate|]. intros [rc' [E _]]. discriminate.
    + discriminate.
    + reflexivity.
Qed.

(** C4. For a queue of N items the worker appends N segments, one per
    item in queue order, each holding exactly one result entry, and
    then one [Done.] entry. *)
Theorem worker_item_results (exe : string) (items : list string) (w : W) :
  exists segs w',
    worker exe items w = (Val tt, w', List.concat segs ++ [EvDone])
    /\ Forall2 (item_segment (List.length items)) (enumerate 1 items) segs
    /\ List.length (filter is_item_result (snd (worker exe items w)))
       = List.length items
    /\ filter is_done (snd (worker exe items w)) = [EvDone].
Proof.
  destruct (for_items_segments W gui path_exists step spawn exe
              (List.length items) items 1 w) as [w' [segs [E F]]].
  exists segs, w'.
  pose proof (worker_eq W gui path_exists step spawn exe items w _ _ E) as We.
  destruct (segments_counts _ _ _ F) as [C1 C2].
  rewrite We. cbn [snd]. rewrite !filter_app, C2, length_app, C1, enumerate_length.
  simpl. repeat split; auto; lia.
Qed.

(** C5. When the launch for an item fails, the item gets an [[ERROR]]
    entry carrying the message of the failure, the worker goes on with
    the items that follow and ends normally; the worker never raises. *)
Theorem launch_failure_is_local
    (exe : string) (pre : list string) (inp : string) (post : list string)
    (w w0 : W) (r0 : Res unit) (ev0 : list Event)
    (outp : string) (args : list string) (wa : W) (msg : string) (wb : W) :
  let items := pre ++ inp :: post in
  let total := List.length items in
  for_items exe total 1 pre w = (r0, w0, ev0) ->
  outp = _output_path_for (outdir_var (gui (step w0))) inp ->
  build_args exe inp outp (step w0) = (Val args, wa, []) ->
  spawn args wa = (mkProc [] (Raised msg), wb) ->
  (forall items' w'', fst (fst (worker exe items' w'')) = Val tt)
  /\ exists w' evpost,
       for_items exe total (S (S (List.length pre))) post wb = (Val tt, w', evpost)
       /\ inputs_of evpost = post
       /\ worker exe items w
          = (Val tt, w',
             ev0 ++ [EvRunning (S (List.length pre)) total args; EvError msg]
             ++ evpost ++ [EvDone]).
Proof.
  intros items total H0 Ho B Sp. split.
  - intros items' w''.
    destruct (for_items_segments W gui path_exists step spawn exe
                (List.length items') items' 1 w'') as [w' [segs [E _]]].
    now rewrite (worker_eq W gui path_exists step spawn exe items' w'' _ _ E).
  - destruct (for_items_segments W gui path_exists step spawn exe total pre 1 w)
      as [w0' [segs0 [E0 _]]].
    rewrite E0 in H0. inversion H0; subst r0 w0' ev0. clear H0.
    destruct (for_items_segments W gui path_exists step spawn exe total post
                (S (S (List.length pre))) wb) as [w' [segs [E F]]].
    exists w', (List.concat segs). split; [exact E|].
    split; [exact (inputs_of_segments _ _ _ _ F)|].
    replace (List.concat segs0
             ++ [EvRunning (S (List.length pre)) total args; EvError msg]
             ++ List.concat segs ++ [EvDone])
      with ((List.concat segs0
             ++ [EvRunning (S (List.length pre)) total args; EvError msg]
             ++ List.concat segs) ++ [EvDone])
      by (rewrite <- !List.app_assoc; reflexivity).
    apply worker_eq. fold items. fold total. unfold items.
    apply for_items_app with (w1 := w0); [exact E0|].
    assert (R : run_with_fallback args wa = (Exc msg, wb, [])).
    { rewrite run_with_fallback_eq, Sp. reflexivity. }
    pose proof (process_item_eq W gui path_exists step spawn exe total
                  (1 + List.length pre) inp w0 _ _ _ _ _ _ Ho B R) as Pi.
    cbn [App.for_items]. unfold bind. rewrite Pi.
    replace (S (1 + List.length pre)) with (S (S (List.length pre))) by lia.
    rewrite E. reflexivity.
Qed.

(** C6. The argument vector is the executable, [extract], [-input] and
    the input, [-output] and the output, then [-pretty], [-all] and
    [-stats] in this order, each present exactly when its check box is
    set at the moment it is read; this vector is what the item
    announces. *)
Theorem build_args_layout (exe inp outp : string) (w : W) :
  let pretty := pretty_var (gui (step w)) in
  let all := all_var (gui (step (step w))) in
  let stats := stats_var (gui (step (step (step w)))) in
  let args := invocation exe inp outp pretty all stats in
  build_args exe inp outp w = (Val args, step (step (step w)), [])
  /\ firstn 6 args = [exe; "extract"; "-input"; inp; "-output"; outp]
  /\ skipn 6 args
     = optional "-pretty" pretty ++ optional "-all" all ++ optional "-stats" stats
  /\ List.existsb (String.eqb "-pretty") (skipn 6 args) = pretty
  /\ List.existsb (String.eqb "-all") (skipn 6 args) = all
  /\ List.existsb (String.eqb "-stats") (skipn 6 args) = stats
  /\ forall total idx w0,
       let w1 := step w0 in
       let outp0 := _output_path_for (outdir_var (gui w1)) inp in
       exists rest,
         snd (process_item exe total idx inp w0)
         = EvRunning idx total
             (invocation exe inp outp0 (pretty_var (gui (step w1)))
                (all_var (gui (step (step w1))))
                (stats_var (gui (step (step (step w1)))))) :: rest.
Proof.
  intros pretty all stats args.
  pose proof (build_args_eq W gui step exe inp outp w) as B. cbv zeta in B.
  split; [exact B|]. split; [reflexivity|]. split; [reflexivity|].
  split; [unfold args; destruct pretty, all, stats; reflexivity|].
  split; [unfold args; destruct pretty, all, stats; reflexivity|].
  split; [unfold args; destruct pretty, all, stats; reflexivity|].
  intros total idx w0 w1 outp0.
  pose proof (build_args_eq W gui step exe inp outp0 w1) as B0. cbv zeta in B0.
  destruct (run_with_fallback
              (invocation exe inp outp0 (pretty_var (gui (step w1)))
                 (all_var (gui (step (step w1))))
                 (stats_var (gui (step (step (step w1))))))
              (step (step (step w1)))) as [[r wb] evs] eqn:R.
  rewrite (process_item_eq W gui path_exists step spawn exe total idx inp w0
             _ _ _ _ _ _ eq_refl B0 R).
  eexists. reflexivity.
Qed.

(** C8. A run works on the queue as it is when [run_queue] is called:
    the inputs the worker announces are that list, whatever is done to
    the list box while the worker runs. *)
Theorem run_queue_snapshot
    (w : W) (exe : string) (items : list string)
    (thread : Res unit * W * list Event) :
  run_queue w = Started W exe items thread ->
  items = lst (gui w)
  /\ inputs_of (snd thread) = lst (gui w)
  /\ List.length (filter is_item_result (snd thread)) = List.length (lst (gui w))
  /\ fst (fst thread) = Val tt.
Proof.
  unfold App.run_queue.
  destruct (negb (truthy (strip (exe_var (gui w))))); [discriminate|].
  destruct (negb (path_exists (strip (exe_var (gui w))) w)); [discriminate|].
  destruct (lst (gui w)) as [|i0 q] eqn:Q; [discriminate|].
  intros H. inversion H; subst exe items thread. clear H.
  destruct (for_items_segments W gui path_exists step spawn
              (strip (exe_var (gui w))) (List.length (i0 :: q)) (i0 :: q) 1 w)
    as [w' [segs [E F]]].
  pose proof (worker_eq W gui path_exists step spawn _ _ _ _ _ E) as We.
  destruct (segments_counts _ _ _ F) as [C1 _].
  unfold bind, _append. rewrite We. cbn [snd fst app].
  split; [reflexivity|]. split; [|split; [|reflexivity]].
  - cbn [inputs_of]. rewrite inputs_of_app, (inputs_of_segments _ _ _ _ F).
    simpl. now rewrite app_nil_r.
  - cbn [filter is_item_result]. rewrite filter_app, length_app, C1, enumerate_length.
    simpl. lia.
Qed.

End Claims.

End Orchestrator.

(** ** The properties on a concrete run *)

Module Scenarios.
Import PyStr App Props Demo.

Lemma item_success_iff_witness :
  let w := start ["empty.log"] false in
  let outp := "empty.json" in
  let args := ["acars_parser"; "extract"; "-input"; "empty.log"; "-output";
               "empty.json"; "-pretty"; "-all"] in
  let wa := d_step (d_step (d_step (d_step w))) in
  let wb := snd (d_spawn args wa) in
  let entries := snd (demo_item "acars_parser" 1 1 "empty.log" w) in
  outp = _output_path_for (outdir_var (d_gui (d_step w))) "empty.log"
  /\ App.build_args World d_gui d_step "acars_parser" "empty.log" outp (d_step w)
     = (Val args, wa, [])
  /\ App.run_with_fallback World d_gui d_step d_spawn args wa = (Val 0%Z, wb, [])
  /\ (entries = EvRunning 1 1 args :: [] ++ App.closing World d_exists d_step (Val 0%Z) outp wb
      /\ List.forallb is_progress [] = true
      /\ (reports_success entries = true
          <-> Val 0%Z = Val 0%Z /\ d_exists outp (d_step wb) = true)
      /\ (Val 0%Z = Val 0%Z -> d_exists outp (d_step wb) = false ->
          App.closing World d_exists d_step (Val 0%Z) outp wb
          = [EvFail 0; EvExpected outp]
          /\ reports_success entries = false)).
Proof.
  intros w outp args wa wb entries.
  split; [reflexivity|]. split; [reflexivity|]. split; [reflexivity|].
  apply (Orchestrator.item_success_iff World d_gui d_exists d_step d_spawn
           "acars_parser" 1 1 "empty.log" w outp args wa (Val 0%Z) wb []);
    reflexivity.
Defined.

Lemma retry_iff_witness :
  let args := ["acars_parser"; "extract"; "-input"; "a.jsonl"; "-output";
               "a.json"; "-pretty"; "-all"; "-stats"] in
  let w := d_step (d_step (d_step (d_step (start ["a.jsonl"] true)))) in
  let p := mkProc ["flag provided but not defined: -stats" ^^ nl;
                   "Usage of extract:" ^^ nl] (Exited 2) in
  let w1 := snd (d_spawn args w) in
  let combined := String.concat "" (p_lines p) in
  let run := App.run_with_fallback World d_gui d_step d_spawn args w in
  let retried := List.existsb is_retry (snd run) in
  d_spawn args w = (p, w1)
  /\ (stats_marker = "flag provided but not defined: -stats"
      /\ (retried = true
          <-> exists rc, p_end p = Exited rc
                         /\ stats_var (d_gui (d_step w1)) = true /\ rc <> 0%Z
                         /\ Substring stats_marker combined)
      /\ (retried = true ->
          let second := d_spawn (without_stats args) (d_step w1) in
          run = (end_result (fst second), snd second,
                 map EvLine (p_lines p)
                 ++ [EvInfo; EvRetry (without_stats args)]
                 ++ map EvLine (p_lines (fst second))))
      /\ (retried = false ->
          run = (end_result p,
                 match p_end p with
                 | Exited rc => if (rc =? 0)%Z then w1 else d_step w1
                 | Raised _ => w1
                 end,
                 map EvLine (p_lines p))))
  /\ retried = true.
Proof.
  intros args w p w1 combined run retried.
  split; [reflexivity|]. split; [|reflexivity].
  apply (Orchestrator.retry_iff World d_gui d_step d_spawn args w p w1).
  reflexivity.
Defined.

Lemma launch_failure_is_local_witness :
  let w := start ["x.log"; "y.log"] false in
  let args := ["acars_parser"; "extract"; "-input"; "x.log"; "-output";
               "x.json"; "-pretty"; "-all"] in
  let msg := "[Errno 13] Permission denied: 'acars_parser'" in
  let wa := d_step (d_step (d_step (d_step w))) in
  let wb := snd (d_spawn args wa) in
  App.for_items World d_gui d_exists d_step d_spawn "acars_parser" 2 1 [] w
  = (Val tt, w, [])
  /\ "x.json" = _output_path_for (outdir_var (d_gui (d_step w))) "x.log"
  /\ App.build_args World d_gui d_step "acars_parser" "x.log" "x.json" (d_step w)
     = (Val args, wa, [])
  /\ d_spawn args wa = (mkProc [] (Raised msg), wb)
  /\ ((forall items' w'', fst (fst (demo_worker "acars_parser" items' w'')) = Val tt)
      /\ exists w' evpost,
           App.for_items World d_gui d_exists d_step d_spawn "acars_parser" 2 2
             ["y.log"] wb = (Val tt, w', evpost)
           /\ inputs_of evpost = ["y.log"]
           /\ demo_worker "acars_parser" ["x.log"; "y.log"] w
              = (Val tt, w',
                 [] ++ [EvRunning 1 2 args; EvError msg] ++ evpost ++ [EvDone]))
  /\ filter is_item_result (snd (demo_worker "acars_parser" ["x.log"; "y.log"] w))
     = [EvError msg; EvOk "y.json"].
Proof.
  intros w args msg wa wb.
  split; [reflexivity|]. split; [reflexivity|]. split; [reflexivity|].
  split; [reflexivity|]. split; [|reflexivity].
  apply (Orchestrator.launch_failure_is_local World d_gui d_exists d_step d_spawn
           "acars_parser" [] "x.log" ["y.log"] w w (Val tt) [] "x.json" args wa
           msg wb); reflexivity.
Defined.

Lemma run_queue_snapshot_witness :
  let w := start ["a.jsonl"] true in
  let thread :=
    App.bind World (App._append World (EvQueueLength 1))
      (fun _ => demo_worker "acars_parser" ["a.jsonl"]) w in
  demo_run_queue w = Started World "acars_parser" ["a.jsonl"] thread
  /\ (["a.jsonl"] = lst (d_gui w)
      /\ inputs_of (snd thread) = lst (d_gui w)
      /\ List.length (filter is_item_result (snd thread)) = List.length (lst (d_gui w))
      /\ fst (fst thread) = Val tt)
  /\ lst (d_gui (snd (fst thread))) = ["a.jsonl"; "late.log"].
Proof.
  intros w thread.
  split; [reflexivity|]. split; [|reflexivity].
  apply (Orchestrator.run_queue_snapshot World d_gui d_exists d_step d_spawn
           w "acars_parser" ["a.jsonl"] thread).
  reflexivity.
Defined.

(** C3 fails for an input named [-stats]: the retry is launched without
    the input path, because the filter drops every argument spelled
    [-stats] and not only the flag. *)
Theorem retry_drops_input_named_stats :
  let w := start ["-stats"] true in
  let final := world_of (demo_worker "acars_parser" ["-stats"] w) in
  d_launched final
  = [ ["acars_parser"; "extract"; "-input"; "-stats"; "-output"; "-stats.json";
       "-pretty"; "-all"; "-stats"];
      ["acars_parser"; "extract"; "-input"; "-output"; "-stats.json";
       "-pretty"; "-all"] ]
  /\ nth 1 (d_launched final) []
     <> invocation "acars_parser" "-stats" "-stats.json" true true false
  /\ without_stats (invocation "acars_parser" "-stats" "-stats.json" true true true)
     <> invocation "acars_parser" "-stats" "-stats.json" true true false.
Proof. repeat split; try reflexivity; discriminate. Qed.

End Scenarios.

(** ** Editing the queue *)

Module QueueFacts.
Import PyStr App QueueOps.

Lemma in_queue_spec (p : string) (queue : list string) :
  List.existsb (String.eqb p) queue = true <-> In p queue.
Proof.
  rewrite List.existsb_exists. split.
  - intros [x [Hx E]]. apply String.eqb_eq in E. now subst.
  - intros H. exists p. split; [exact H | apply String.eqb_refl].
Qed.

(** The warnings do not depend on the queue. *)
Lemma add_warnings (found : string -> bool) (paths queue : list string) :
  snd (_add_to_queue found paths queue) = map EvWarn (missing found paths).
Proof.
  revert queue. unfold missing.
  induction paths as [|p rest IH]; intros queue; [reflexivity|].
  cbn [_add_to_queue map filter].
  destruct (truthy (strip p)); cbn [negb andb]; [|apply IH].
  destruct (found (strip p)); cbn [negb].
  - destruct (List.existsb _ queue); apply IH.
  - specialize (IH queue). destruct (_add_to_queue found rest queue) as [q ws].
    simpl in *. now rewrite IH.
Qed.

Lemma add_queue_step (found : string -> bool) (p : string) (rest queue : list string) :
  fst (_add_to_queue found (p :: rest) queue)
  = fst (_add_to_queue found rest
           (if truthy (strip p) && found (strip p)
               && negb (List.existsb (String.eqb (strip p)) queue)
            then queue ++ [strip p] else queue)).
Proof.
  cbn [_add_to_queue].
  destruct (truthy (strip p)); cbn [negb andb]; [|reflexivity].
  destruct (found (strip p)); cbn [negb andb].
  - destruct (List.existsb _ queue); reflexivity.
  - destruct (_add_to_queue found rest queue). reflexivity.
Qed.

Lemma add_appends (found : string -> bool) (paths : list string) :
  forall queue, exists added,
    fst (_add_to_queue found paths queue) = queue ++ added
    /\ NoDup added
    /\ (forall x, In x added -> ~ In x queue).
Proof.
  induction paths as [|p rest IH]; intros queue.
  - exists []. simpl. rewrite app_nil_r. repeat split; [constructor | intros x []].
  - rewrite add_queue_step.
    destruct (truthy (strip p) && found (strip p)
              && negb (List.existsb (String.eqb (strip p)) queue)) eqn:C.
    + apply andb_true_iff in C as [_ C]. apply negb_true_iff in C.
      assert (N : ~ In (strip p) queue).
      { intros H. apply in_queue_spec in H. congruence. }
      destruct (IH (queue ++ [strip p])) as [added [E [ND Dis]]].
      exists (strip p :: added). rewrite E, <- List.app_assoc. split; [reflexivity|].
      split.
      * constructor; [|exact ND]. intros H. apply (Dis _ H).
        apply in_or_app. right. now left.
      * intros x [<-|H]; [exact N|]. intros Hq. apply (Dis _ H).
        apply in_or_app. now left.
    + exact (IH queue).
Qed.

Lemma add_members (found : string -> bool) (paths : list string) :
  forall queue x,
    In x (fst (_add_to_queue found paths queue))
    <-> In x queue \/ In x (admissible found paths).
Proof.
  unfold admissible.
  induction paths as [|p rest IH]; intros queue x.
  - simpl. tauto.
  - rewrite add_queue_step, IH. cbn [map filter].
    destruct (truthy (strip p) && found (strip p)) eqn:A; cbn [andb].
    + destruct (List.existsb (String.eqb (strip p)) queue) eqn:Q; cbn [negb].
      * apply in_queue_spec in Q. simpl. split; [tauto|].
        intros [H|[<-|H]]; tauto.
      * rewrite in_app_iff. simpl. tauto.
    + tauto.
Qed.

(** Nothing is added when every admissible path is already queued. *)
Lemma add_nothing_new (found : string -> bool) (paths : list string) :
  forall queue,
    (forall x, In x (admissible found paths) -> In x queue) ->
    fst (_add_to_queue found paths queue) = queue.
Proof.
  unfold admissible.
  induction paths as [|p rest IH]; intros queue H; [reflexivity|].
  rewrite add_queue_step. cbn [map filter] in H.
  destruct (truthy (strip p) && found (strip p)) eqn:A; cbn [andb].
  - assert (Q : In (strip p) queue) by (apply H; now left).
    apply in_queue_spec in Q. rewrite Q. cbn [negb].
    apply IH. intros x Hx. apply H. now right.
  - apply IH. exact H.
Qed.

Lemma delete_keep (queue : list string) :
  forall k a rest,
    Forall (fun i => k + a < i) rest ->
    delete_at a (keep_from k rest queue) = keep_from k ((k + a) :: rest) queue.
Proof.
  assert (Hn : forall k rest, Forall (fun i => k < i) rest ->
                 List.existsb (Nat.eqb k) rest = false).
  { intros k rest F. induction F as [|i r Hi _ IH]; [reflexivity|].
    simpl. rewrite IH, orb_false_r. apply Nat.eqb_neq. lia. }
  assert (Hs : forall q j k sel, j < k ->
                 keep_from k (j :: sel) q = keep_from k sel q).
  { induction q as [|x r IHq]; intros j k sel Hj; [reflexivity|].
    cbn [keep_from List.existsb].
    replace (Nat.eqb k j) with false by (symmetry; apply Nat.eqb_neq; lia).
    cbn [orb]. rewrite IHq by lia. reflexivity. }
  induction queue as [|x r IH]; intros k a rest F; [now destruct a|].
  assert (F0 : List.existsb (Nat.eqb k) rest = false).
  { apply Hn. eapply Forall_impl; [|exact F]. simpl. intros; lia. }
  cbn [keep_from List.existsb]. rewrite F0. destruct a as [|a'].
  - rewrite Nat.add_0_r, Nat.eqb_refl. cbn [orb delete_at].
    symmetry. apply Hs. lia.
  - replace (Nat.eqb k (k + S a')) with false by (symmetry; apply Nat.eqb_neq; lia).
    cbn [orb delete_at]. f_equal.
    replace (k + S a') with (S k + a') by lia.
    apply IH. eapply Forall_impl; [|exact F]. simpl. intros; lia.
Qed.

Lemma ascending_tail (a : nat) (rest : list nat) :
  ascending (a :: rest) = true ->
  ascending rest = true /\ Forall (fun i => a < i) rest.
Proof.
  revert a. induction rest as [|b r IH]; intros a H.
  - split; [reflexivity | constructor].
  - cbn [ascending] in H. apply andb_true_iff in H as [Hab Hr].
    apply Nat.ltb_lt in Hab. split; [exact Hr|].
    constructor; [exact Hab|].
    destruct (IH b Hr) as [_ F]. eapply Forall_impl; [|exact F].
    simpl. intros; lia.
Qed.

End QueueFacts.

(** X1. [_add_to_queue] only appends: the old queue stays in place, the
    appended paths are pairwise different and none of them was queued
    before; so a queue without duplicates stays without duplicates. *)
Theorem add_to_queue_appends
    (found : string -> bool) (paths queue : list string) :
  exists added,
    fst (App._add_to_queue found paths queue) = queue ++ added
    /\ NoDup added
    /\ (forall x, In x added -> ~ In x queue)
    /\ (NoDup queue -> NoDup (fst (App._add_to_queue found paths queue))).
Proof.
  destruct (QueueFacts.add_appends found paths queue) as [added [E [ND Dis]]].
  exists added. repeat split; try assumption.
  intros NQ. rewrite E. clear E.
  induction queue as [|q r IH]; [exact ND|].
  inversion NQ; subst. simpl. constructor.
  - rewrite in_app_iff. intros [H|H]; [contradiction|].
    apply (Dis _ H). now left.
  - apply IH; [|assumption]. intros x Hx Hr. apply (Dis _ Hx). now right.
Qed.

Lemma add_to_queue_appends_witness :
  exists added,
    fst (App._add_to_queue (fun p => negb (String.eqb p "gone.log"))
           [" b.log "; "a.log"; ""; "gone.log"; "b.log"] ["a.log"])
    = ["a.log"] ++ added
    /\ NoDup added
    /\ (forall x, In x added -> ~ In x ["a.log"])
    /\ (NoDup ["a.log"] ->
        NoDup (fst (App._add_to_queue (fun p => negb (String.eqb p "gone.log"))
                      [" b.log "; "a.log"; ""; "gone.log"; "b.log"] ["a.log"]))).
Proof. apply add_to_queue_appends. Defined.

(** X2. After [_add_to_queue] the queue holds exactly the paths queued
    before and the given paths that, once trimmed, are not empty and
    exist on disk. *)
Theorem add_to_queue_members
    (found : string -> bool) (paths queue : list string) (x : string) :
  In x (fst (App._add_to_queue found paths queue))
  <-> In x queue
      \/ exists p, In p paths /\ x = PyStr.strip p
                   /\ PyStr.truthy x = true /\ found x = true.
Proof.
  rewrite QueueFacts.add_members. unfold QueueOps.admissible.
  rewrite filter_In, in_map_iff, andb_true_iff. split.
  - intros [H|[[p [E Hp]] [T F]]]; [now left|]. right. exists p. subst. auto.
  - intros [H|[p [Hp [E [T F]]]]]; [now left|]. right. split; [|auto].
    exists p. subst. auto.
Qed.

(** X3. [_add_to_queue] warns once for every given path that, once
    trimmed, is not empty and does not exist, in the order given, and
    for nothing else. *)
Theorem add_to_queue_warnings
    (found : string -> bool) (paths queue : list string) :
  snd (App._add_to_queue found paths queue)
  = map App.EvWarn
      (filter (fun p => PyStr.truthy p && negb (found p)) (map PyStr.strip paths)).
Proof. apply QueueFacts.add_warnings. Qed.

(** X4. Adding the same paths a second time changes nothing: the queue
    stays as the first call left it and the same warnings appear. *)
Theorem add_to_queue_twice
    (found : string -> bool) (paths queue : list string) :
  let once := App._add_to_queue found paths queue in
  App._add_to_queue found paths (fst once) = once.
Proof.
  intros once.
  rewrite (surjective_pairing (App._add_to_queue found paths (fst once))).
  rewrite (surjective_pairing once) at 3. f_equal.
  - apply QueueFacts.add_nothing_new. intros x Hx.
    apply QueueFacts.add_members. now right.
  - unfold once. now rewrite !QueueFacts.add_warnings.
Qed.

(** X5. [remove_selected] removes exactly the selected positions: for a
    selection in increasing order the queue that is left holds the items
    at the positions not selected, in their order; positions past the
    end are ignored. *)
Theorem remove_selected_keeps (sel : list nat) (queue : list string) :
  QueueOps.ascending sel = true ->
  QueueOps.remove_selected sel queue = QueueOps.keep_from 0 sel queue.
Proof.
  unfold QueueOps.remove_selected. rewrite <- fold_left_rev_right, rev_involutive.
  induction sel as [|a rest IH]; intros A.
  - simpl. induction queue as [|x r IHq]; [reflexivity|].
    simpl. f_equal. clear IHq.
    assert (G : forall k, QueueOps.keep_from k [] r = r).
    { induction r as [|y r' IHr]; intros k; [reflexivity|]. simpl. now rewrite IHr. }
    symmetry. apply G.
  - destruct (QueueFacts.ascending_tail _ _ A) as [Ar F].
    cbn [fold_right]. rewrite (IH Ar).
    apply (QueueFacts.delete_keep queue 0 a rest). exact F.
Qed.

Lemma remove_selected_keeps_witness :
  QueueOps.ascending [0; 2; 7] = true
  /\ QueueOps.remove_selected [0; 2; 7] ["a.log"; "b.log"; "c.log"; "d.log"]
     = QueueOps.keep_from 0 [0; 2; 7] ["a.log"; "b.log"; "c.log"; "d.log"].
Proof.
  split; [reflexivity|]. apply remove_selected_keeps. reflexivity.
Defined.

(** ** More on output paths *)

Module PathMore.
Import PyStr PosixPath App Props MoreProps PyStrFacts PathFacts.

Lemma endswith_split (c : ascii) (s : string) :
  endswith c s = true -> exists s', s = s' ^^ String c "".
Proof.
  induction s as [|a r IH]; [discriminate|].
  destruct r as [|b r'].
  - simpl. intros H. apply Ascii.eqb_eq in H. subst. now exists "".
  - intros H. destruct (IH H) as [s' E]. exists (String a s'). simpl. now rewrite <- E.
Qed.

Lemma endswith_app (c : ascii) (a b : string) :
  truthy b = true -> endswith c (a ^^ b) = endswith c b.
Proof.
  intros T. induction a as [|x r IH]; [reflexivity|].
  simpl. destruct (r ^^ b) eqn:E; [|exact IH].
  destruct r; [simpl in E; subst b; discriminate T | discriminate E].
Qed.

Lemma existsb_take (f : ascii -> bool) (n : nat) (s : string) :
  existsb f (take n s) = true -> existsb f s = true.
Proof.
  revert s. induction n as [|n IH]; intros [|c r]; simpl; try discriminate.
  intros H. apply orb_true_iff in H as [H|H]; [now rewrite H|].
  rewrite (IH _ H). apply orb_true_r.
Qed.

Lemma take_past (a b : string) (c : ascii) :
  take (S (String.length a)) (a ^^ String c b) = a ^^ String c "".
Proof.
  induction a as [|x r IH]; [now destruct b|].
  simpl in *. f_equal. exact IH.
Qed.

Lemma forallb_app (f : ascii -> bool) (a b : string) :
  forallb f (a ^^ b) = forallb f a && forallb f b.
Proof. induction a as [|c r IH]; simpl; [reflexivity | now rewrite IH, andb_assoc]. Qed.

Lemma repeat_all (c : ascii) (n : nat) : forallb (Ascii.eqb c) (repeat_char c n) = true.
Proof. induction n; simpl; [reflexivity | now rewrite Ascii.eqb_refl]. Qed.

Lemma all_repeat (c : ascii) (s : string) :
  forallb (Ascii.eqb c) s = true -> s = repeat_char c (String.length s).
Proof.
  induction s as [|a r IH]; [reflexivity|]. simpl. intros H.
  apply andb_true_iff in H as [Ha Hr]. apply Ascii.eqb_eq in Ha. subst.
  now rewrite <- IH.
Qed.

Lemma all_endswith (c : ascii) (s : string) :
  forallb (Ascii.eqb c) s = true -> truthy s = true -> endswith c s = true.
Proof.
  induction s as [|a r IH]; [discriminate|]. simpl. intros H _.
  apply andb_true_iff in H as [Ha Hr]. destruct r as [|b r'].
  - now rewrite Ascii.eqb_sym.
  - apply IH; [exact Hr | reflexivity].
Qed.

Lemma rstrip_empty_all (f : ascii -> bool) (s : string) :
  rstrip_by f s = "" -> forallb f s = true.
Proof.
  induction s as [|a r IH]; [reflexivity|]. simpl.
  destruct (rstrip_by f r); [|discriminate].
  destruct (f a); [intros _; now rewrite IH | discriminate].
Qed.

Lemma rstrip_no_end (c : ascii) (s : string) :
  endswith c (rstrip_by (Ascii.eqb c) s) = false.
Proof.
  induction s as [|a r IH]; [reflexivity|]. simpl.
  destruct (rstrip_by (Ascii.eqb c) r) as [|b r'] eqn:E.
  - destruct (Ascii.eqb c a) eqn:A; [reflexivity|]. simpl. now rewrite Ascii.eqb_sym.
  - exact IH.
Qed.

Lemma rstrip_added (c : ascii) (s : string) :
  truthy s = true -> endswith c s = false ->
  rstrip_by (Ascii.eqb c) (s ^^ String c "") = s.
Proof.
  induction s as [|a r IH]; [discriminate|]. intros _ H.
  destruct r as [|b r'].
  - simpl in *. rewrite Ascii.eqb_refl. rewrite Ascii.eqb_sym in H. now rewrite H.
  - cbn [String.append rstrip_by] in *. rewrite IH by (reflexivity || exact H).
    reflexivity.
Qed.

(** The three shapes of a directory part. *)
Lemma dirname_shape (p : string) :
  dirname p = ""
  \/ (truthy (dirname p) = true /\ forallb (Ascii.eqb sep) (dirname p) = true)
  \/ (truthy (dirname p) = true /\ endswith sep (dirname p) = false).
Proof.
  unfold dirname. set (head := take (after_last_sep p) p).
  destruct (truthy head) eqn:T; cbn [andb].
  - destruct (String.eqb head (repeat_char sep (String.length head))) eqn:E; cbn [negb].
    + apply String.eqb_eq in E. right. left. split; [exact T|].
      rewrite E. apply repeat_all.
    + right. right. split; [|apply rstrip_no_end].
      destruct (rstrip_char sep head) eqn:R; [|reflexivity].
      apply rstrip_empty_all, all_repeat in R.
      apply String.eqb_neq in E. contradiction.
  - left. now destruct head.
Qed.

Lemma dirname_of_name (b : string) : has_char sep b = false -> dirname b = "".
Proof.
  intros H. unfold dirname, after_last_sep. rewrite (rfind_absent _ _ H).
  now destruct b.
Qed.

Lemma dirname_head (x b : string) :
  has_char sep b = false ->
  dirname (x ^^ String sep b)
  = let head := x ^^ String sep "" in
    if negb (String.eqb head (repeat_char sep (String.length head)))
    then rstrip_char sep head else head.
Proof.
  intros H. unfold dirname, after_last_sep.
  rewrite (rfind_app_last _ x b H).
  replace (Z.to_nat (Z.of_nat (String.length x) + 1)) with (S (String.length x)) by lia.
  rewrite take_past. cbv zeta.
  replace (truthy (x ^^ String sep "")) with true by (now destruct x).
  reflexivity.
Qed.

Lemma dirname_slashes (d b : string) :
  truthy d = true -> forallb (Ascii.eqb sep) d = true -> has_char sep b = false ->
  dirname (d ^^ b) = d.
Proof.
  intros T A H. destruct (endswith_split _ _ (all_endswith _ _ A T)) as [x E].
  rewrite E, app_assoc. cbn [String.append]. rewrite (dirname_head _ _ H).
  cbv zeta. rewrite <- E, <- (all_repeat _ _ A), String.eqb_refl. reflexivity.
Qed.

Lemma dirname_in_dir (d b : string) :
  truthy d = true -> endswith sep d = false -> has_char sep b = false ->
  dirname (d ^^ String sep b) = d.
Proof.
  intros T N H. rewrite (dirname_head _ _ H). cbv zeta.
  destruct (String.eqb (d ^^ String sep "")
              (repeat_char sep (String.length (d ^^ String sep "")))) eqn:E.
  - exfalso. apply String.eqb_eq in E.
    pose proof (repeat_all sep (String.length (d ^^ String sep ""))) as R.
    rewrite <- E, forallb_app in R. apply andb_true_iff in R as [R _].
    rewrite (all_endswith _ _ R T) in N. discriminate.
  - simpl. unfold rstrip_char. now apply rstrip_added.
Qed.

Lemma stem_no_sep (p : string) : has_char sep (stem p) = false.
Proof.
  unfold stem, splitext. pose proof (basename_no_sep p) as B.
  destruct (_ && _); simpl; [|exact B].
  destruct (has_char sep (take _ (basename p))) eqn:E; [|reflexivity].
  apply existsb_take in E. unfold has_char in B. congruence.
Qed.

Lemma outname_no_sep (p : string) : has_char sep (stem p ^^ ".json") = false.
Proof.
  unfold has_char. rewrite existsb_app. fold (has_char sep (stem p)).
  now rewrite stem_no_sep.
Qed.

(** The path is the chosen folder, perhaps a separator, and the name. *)
Lemma output_path_parts (d p : string) :
  exists x, _output_path_for d p = x ^^ stem p ^^ ".json"
            /\ (x = "" \/ endswith sep x = true).
Proof.
  rewrite output_path_unfold. unfold PosixPath.join.
  rewrite outname_relative.
  set (dir := if truthy (strip d) then strip d else dirname p).
  destruct (is_empty dir) eqn:Em; cbn [orb].
  - exists dir. split; [reflexivity|]. left. now destruct dir.
  - destruct (endswith sep dir) eqn:En.
    + exists dir. split; [reflexivity | now right].
    + exists (dir ^^ String sep ""). split; [now rewrite app_assoc|].
      right. now rewrite endswith_app.
Qed.

End PathMore.

(** X6. Whatever the folder, the file name of the output path is the
    stem of the input followed by [.json]; in particular every output
    path ends in [.json]. *)
Theorem output_path_basename (d p : string) :
  PosixPath.basename (App._output_path_for d p) = Props.stem p ^^ ".json"
  /\ MoreProps.Suffix ".json" (App._output_path_for d p).
Proof.
  destruct (PathMore.output_path_parts d p) as [x [E Hx]]. rewrite E. split.
  - destruct Hx as [->|Hx].
    + apply PathFacts.basename_of_name, PathMore.outname_no_sep.
    + destruct (PathMore.endswith_split _ _ Hx) as [x' ->].
      rewrite PyStrFacts.app_assoc. cbn [String.append].
      apply PathFacts.basename_in_dir, PathMore.outname_no_sep.
  - exists (x ^^ Props.stem p). now rewrite PyStrFacts.app_assoc.
Qed.

(** X7. With no output folder the output lands beside the input: the
    directory part of the output path is the directory part of the
    input path. *)
Theorem output_path_beside_input (d p : string) :
  PyStr.strip d = "" ->
  PosixPath.dirname (App._output_path_for d p) = PosixPath.dirname p.
Proof.
  intros Hd. rewrite PathFacts.output_path_unfold, Hd. cbn [PyStr.truthy PyStr.is_empty negb].
  unfold PosixPath.join. rewrite PathFacts.outname_relative.
  pose proof (PathMore.outname_no_sep p) as N.
  destruct (PathMore.dirname_shape p) as [E | [[T A] | [T E]]].
  - rewrite E. simpl. now apply PathMore.dirname_of_name.
  - rewrite (PathMore.all_endswith _ _ A T), orb_true_r.
    now apply PathMore.dirname_slashes.
  - rewrite E. replace (PyStr.is_empty (PosixPath.dirname p)) with false
      by (unfold PyStr.truthy in T; now destruct (PyStr.is_empty _)).
    simpl. now apply PathMore.dirname_in_dir.
Qed.

Lemma output_path_beside_input_witness :
  PyStr.strip "  " = ""
  /\ PosixPath.dirname (App._output_path_for "  " "/var//logs/day.1.log")
     = PosixPath.dirname "/var//logs/day.1.log".
Proof.
  split; [reflexivity|]. apply output_path_beside_input. reflexivity.
Defined.



(** ** More on the payload splitter *)

Module DndMore.
Import PyStr Dnd App Props MoreProps PyStrFacts DndFacts.

(** One step of [replace]: a pair of backslashes is taken together. *)
Lemma unescape_cons (c : ascii) (r : string) :
  unescape (String c r)
  = match r with
    | String d r' =>
        if Ascii.eqb c "\" && Ascii.eqb d "\" then String "\" (unescape r')
        else String c (unescape r)
    | EmptyString => String c ""
    end.
Proof.
  destruct r as [|d r'].
  - destruct c as [[] [] [] [] [] [] [] []]; reflexivity.
  - destruct (Ascii.eqb c "\") eqn:C.
    + apply Ascii.eqb_eq in C. subst c.
      destruct d as [[] [] [] [] [] [] [] []]; reflexivity.
    + destruct c as [[] [] [] [] [] [] [] []]; try reflexivity; discriminate C.
Qed.

Lemma unescape_truthy (s : string) : truthy (unescape s) = truthy s.
Proof.
  destruct s as [|c r]; [reflexivity|]. rewrite unescape_cons.
  destruct r; [reflexivity|]. destruct (_ && _); reflexivity.
Qed.

(** [replace] brings in no character that was not there. *)
Lemma unescape_chars (f : ascii -> bool) (n : nat) :
  forall s, String.length s <= n ->
    existsb f (unescape s) = true -> existsb f s = true.
Proof.
  induction n as [|n IH]; intros [|c r] L; try (simpl in L; lia); auto.
  rewrite unescape_cons. destruct r as [|d r']; [auto|].
  destruct (Ascii.eqb c "\" && Ascii.eqb d "\") eqn:E.
  - apply andb_true_iff in E as [Ec Ed].
    apply Ascii.eqb_eq in Ec, Ed. subst c d.
    cbn [existsb]. intros H. apply orb_true_iff in H as [H|H].
    + now rewrite H.
    + apply IH in H; [|simpl in L; lia]. rewrite H.
      now rewrite !orb_true_r.
  - cbn [existsb]. intros H. apply orb_true_iff in H as [H|H].
    + now rewrite H.
    + apply IH in H; [|simpl in *; lia]. cbn [existsb] in H. rewrite H.
      apply orb_true_r.
Qed.

Lemma unescape_plain (s : string) :
  has_char "\" s = false -> unescape s = s.
Proof.
  unfold has_char. induction s as [|c r IH]; [reflexivity|].
  cbn [existsb]. intros H. apply orb_false_iff in H as [Hc Hr].
  rewrite unescape_cons. destruct r as [|d r']; [reflexivity|].
  rewrite Ascii.eqb_sym in Hc. rewrite Hc. cbn [andb]. now rewrite IH.
Qed.

Lemma flush_clean (f : ascii -> bool) (st : scan_state) :
  Forall (clean f) (out st) -> existsb f (cur st) = false ->
  Forall (clean f) (flush st).
Proof.
  intros O C. unfold flush. destruct (truthy (cur st)) eqn:T; [|exact O].
  apply Forall_app. split; [exact O|]. constructor; [now split | constructor].
Qed.

Lemma scan_clean (f : ascii -> bool) (data : string) :
  forallb (fun ch => is_brace ch || negb (f ch)) data = true ->
  forall st,
    Forall (clean f) (out st) -> existsb f (cur st) = false ->
    Forall (clean f) (out (scan st data)) /\ existsb f (cur (scan st data)) = false.
Proof.
  induction data as [|ch r IH]; intros H st O C; [now split|].
  cbn [forallb] in H. apply andb_true_iff in H as [Hc Hr]. cbn [scan].
  apply IH; [exact Hr | |]; unfold scan_step.
  - destruct (Ascii.eqb ch "{"); [exact O|].
    destruct (Ascii.eqb ch "}"); [now apply flush_clean|].
    destruct (isspace ch && negb (in_brace st)); [now apply flush_clean | exact O].
  - destruct (Ascii.eqb ch "{") eqn:B1; [reflexivity|].
    destruct (Ascii.eqb ch "}") eqn:B2; [reflexivity|].
    destruct (isspace ch && negb (in_brace st)); [reflexivity|].
    cbn [cur]. rewrite existsb_app, C. cbn [existsb orb].
    unfold is_brace in Hc. rewrite B1, B2 in Hc. simpl in Hc.
    apply negb_true_iff in Hc. now rewrite Hc.
Qed.

Lemma forallb_lstrip (g f : ascii -> bool) (s : string) :
  forallb g s = true -> forallb g (lstrip_by f s) = true.
Proof.
  induction s as [|c r IH]; [reflexivity|]. intros H. simpl.
  destruct (f c); [|exact H]. simpl in H. apply andb_true_iff in H as [_ H]. auto.
Qed.

Lemma forallb_rstrip (g f : ascii -> bool) (s : string) :
  forallb g s = true -> forallb g (rstrip_by f s) = true.
Proof.
  intros H. destruct (rstrip_split f s) as [t [E _]].
  rewrite E in H. clear E.
  induction (rstrip_by f s) as [|c r IH]; [reflexivity|].
  simpl in *. apply andb_true_iff in H as [Hc Hr]. now rewrite Hc, IH.
Qed.

Lemma split_clean (f : ascii -> bool) (data : string) :
  forallb (fun ch => is_brace ch || negb (f ch)) data = true ->
  Forall (clean f) (flush (scan (mkScan [] "" false) (strip data))).
Proof.
  intros H. apply flush_clean; apply scan_clean; try (constructor || reflexivity);
    unfold strip; now apply forallb_rstrip, forallb_lstrip.
Qed.

Lemma lstrip_app (f : ascii -> bool) (s b : string) :
  lstrip_by f (s ^^ b) = if forallb f s then lstrip_by f b else lstrip_by f s ^^ b.
Proof.
  induction s as [|c r IH]; [reflexivity|]. simpl.
  destruct (f c); [exact IH | reflexivity].
Qed.

Lemma rstrip_all (f : ascii -> bool) (b : string) :
  forallb f b = true -> rstrip_by f b = "".
Proof.
  induction b as [|c r IH]; [reflexivity|]. simpl. intros H.
  apply andb_true_iff in H as [Hc Hr]. now rewrite IH, Hc.
Qed.

Lemma rstrip_app_space (f : ascii -> bool) (s b : string) :
  forallb f b = true -> rstrip_by f (s ^^ b) = rstrip_by f s.
Proof.
  intros H. induction s as [|c r IH]; [now apply rstrip_all|].
  simpl. now rewrite IH.
Qed.

Lemma strip_outer (a data b : string) :
  forallb isspace a = true -> forallb isspace b = true ->
  strip (a ^^ data ^^ b) = strip data.
Proof.
  intros Ha Hb. unfold strip. rewrite lstrip_app, Ha, lstrip_app.
  destruct (forallb isspace data) eqn:D.
  - now rewrite (lstrip_all _ _ Hb), (lstrip_all _ _ D).
  - now apply rstrip_app_space.
Qed.

(** The splitter on a well-formed payload, before [replace]. *)
Lemma split_payload (segs : list Seg) :
  well_formed segs = true ->
  _split_dnd_files (payload segs) = map unescape (raw_tokens segs).
Proof.
  intros WF. rewrite split_unfold.
  destruct (scan_payload segs WF []) as [I F].
  rewrite flush_strip by exact I. cbv zeta in F. now rewrite F.
Qed.

Lemma raw_tokens_chars (f : ascii -> bool) (segs : list Seg) :
  existsb f (payload segs) = false ->
  Forall (fun t => existsb f t = false) (raw_tokens segs).
Proof.
  induction segs as [|x r IH]; [constructor|].
  cbn [payload]. rewrite existsb_app. intros H.
  apply orb_false_iff in H as [Hx Hr]. specialize (IH Hr).
  destruct x as [g|w|s]; cbn [raw_tokens].
  - apply Forall_app. split; [|exact IH].
    destruct (truthy g); constructor; [|constructor].
    simpl in Hx. rewrite existsb_app in Hx.
    apply orb_false_iff in Hx as [_ Hx]. apply orb_false_iff in Hx as [Hx _].
    exact Hx.
  - destruct r as [|[g'|w'|s'] r']; try (constructor; [exact Hx | exact IH]).
    exact IH.
  - exact IH.
Qed.

End DndMore.

(** X9. No path returned by [_split_dnd_files] is empty and none holds a
    brace, whatever the payload. *)
Theorem split_dnd_files_clean (data : string) :
  Forall (fun t => PyStr.truthy t = true /\ PyStr.existsb Props.is_brace t = false)
         (Dnd._split_dnd_files data).
Proof.
  rewrite DndFacts.split_unfold.
  assert (H : PyStr.forallb
                (fun ch => Props.is_brace ch || negb (Props.is_brace ch)) data = true).
  { induction data as [|c r IH]; [reflexivity|]. simpl. rewrite IH.
    now destruct (Props.is_brace c). }
  pose proof (DndMore.split_clean Props.is_brace data H) as C.
  induction C as [|t l [T B] _ IH]; [constructor|].
  simpl. constructor; [|exact IH]. split.
  - now rewrite DndMore.unescape_truthy.
  - destruct (PyStr.existsb Props.is_brace (Dnd.unescape t)) eqn:E; [|reflexivity].
    apply (DndMore.unescape_chars _ _ _ (Nat.le_refl _)) in E. congruence.
Qed.

(** X10. Whitespace before and after the payload makes no difference to
    the paths returned. *)
Theorem split_dnd_files_outer_space (a data b : string) :
  PyStr.forallb PyStr.isspace a = true ->
  PyStr.forallb PyStr.isspace b = true ->
  Dnd._split_dnd_files (a ^^ data ^^ b) = Dnd._split_dnd_files data.
Proof.
  intros Ha Hb. rewrite !DndFacts.split_unfold. now rewrite DndMore.strip_outer.
Qed.

Lemma split_dnd_files_outer_space_witness :
  PyStr.forallb PyStr.isspace (" " ^^ App.nl) = true
  /\ PyStr.forallb PyStr.isspace "  " = true
  /\ Dnd._split_dnd_files ((" " ^^ App.nl) ^^ "{/tmp/a b.log} /tmp/c.log" ^^ "  ")
     = Dnd._split_dnd_files "{/tmp/a b.log} /tmp/c.log".
Proof.
  split; [reflexivity|]. split; [reflexivity|].
  apply split_dnd_files_outer_space; reflexivity.
Defined.

(** X11. A payload without a backslash comes back verbatim: for balanced
    braces the paths returned are the contents of the non-empty groups
    and the words not followed by an opening brace, character for
    character. *)
Theorem split_dnd_files_verbatim (data : string) :
  Props.balanced data = true ->
  Props.has_char "\" data = false ->
  Dnd._split_dnd_files data = Props.raw_tokens (Props.segments data).
Proof.
  intros B N.
  destruct (DndFacts.segments_from_spec data false B) as [WF [_ E]].
  fold (Props.segments data) in WF, E.
  rewrite E at 1. rewrite (DndMore.split_payload _ WF).
  unfold Props.has_char in N. rewrite E in N.
  pose proof (DndMore.raw_tokens_chars _ _ N) as F.
  induction F as [|t l Ht _ IH]; [reflexivity|].
  simpl. now rewrite IH, (DndMore.unescape_plain t Ht).
Qed.

Lemma split_dnd_files_verbatim_witness :
  Props.balanced "{/tmp/my logs/a.log} /tmp/b.log" = true
  /\ Props.has_char "\" "{/tmp/my logs/a.log} /tmp/b.log" = false
  /\ Dnd._split_dnd_files "{/tmp/my logs/a.log} /tmp/b.log"
     = Props.raw_tokens (Props.segments "{/tmp/my logs/a.log} /tmp/b.log").
Proof.
  split; [reflexivity|]. split; [reflexivity|].
  apply split_dnd_files_verbatim; reflexivity.
Defined.

(** X12. Dropping a blank payload leaves the queue as it is and warns
    about nothing; dropping any payload a second time changes nothing
    more. *)
Theorem on_drop_twice (found : string -> bool) (data : string) (queue : list string) :
  (PyStr.forallb PyStr.isspace data = true ->
   App._on_drop found data queue = (queue, []))
  /\ let once := App._on_drop found data queue in
     App._on_drop found data (fst once) = once.
Proof.
  split.
  - intros H. unfold App._on_drop. rewrite DndFacts.split_unfold.
    unfold PyStr.strip. now rewrite (PyStrFacts.lstrip_all _ _ H).
  - unfold App._on_drop. destruct (Dnd._split_dnd_files data) as [|t l]; [reflexivity|].
    cbv zeta.
    rewrite (surjective_pairing
               (App._add_to_queue found (t :: l)
                  (fst (App._add_to_queue found (t :: l) queue)))).
    rewrite (surjective_pairing (App._add_to_queue found (t :: l) queue)) at 3.
    f_equal.
    + apply QueueFacts.add_nothing_new. intros x Hx.
      apply QueueFacts.add_members. now right.
    + now rewrite !QueueFacts.add_warnings.
Qed.

Lemma on_drop_twice_witness :
  PyStr.forallb PyStr.isspace "   " = true
  /\ App._on_drop (fun _ => true) "   " ["a.log"] = (["a.log"], [])
  /\ App._on_drop (fun _ => true) "{b c.log} a.log"
       (fst (App._on_drop (fun _ => true) "{b c.log} a.log" ["a.log"]))
     = App._on_drop (fun _ => true) "{b c.log} a.log" ["a.log"].
Proof.
  split; [reflexivity|]. split.
  - apply (proj1 (on_drop_twice (fun _ => true) "   " ["a.log"])). reflexivity.
  - apply (proj2 (on_drop_twice (fun _ => true) "{b c.log} a.log" ["a.log"])).
Defined.

(** ** More on the worker *)

Module WorkerMore.
Import PyStr App Props MoreProps PyStrFacts WorkerFacts.

Lemma exes_of_app (a b : list Event) : exes_of (a ++ b) = exes_of a ++ exes_of b.
Proof.
  induction a as [|e r IH]; [reflexivity|].
  destruct e; simpl; rewrite IH; reflexivity.
Qed.

Lemma exes_of_progress (body : list Event) :
  List.forallb is_progress body = true -> exes_of body = [].
Proof.
  induction body as [|e r IH]; [reflexivity|]. simpl.
  intros H. apply andb_true_iff in H as [He Hr].
  destruct e; try discriminate; auto.
Qed.

Lemma exes_of_result (r : list Event) : result_block r -> exes_of r = [].
Proof. now destruct 1. Qed.

Lemma without_stats_clean (args : list string) :
  List.existsb (String.eqb "-stats") (without_stats args) = false.
Proof.
  unfold without_stats. induction args as [|a r IH]; [reflexivity|].
  cbn [filter]. destruct (String.eqb a "-stats") eqn:E; cbn [negb]; [exact IH|].
  cbn [List.existsb]. now rewrite String.eqb_sym, E, IH.
Qed.

Lemma output_path_not_flag (d p : string) : _output_path_for d p <> "-stats".
Proof.
  destruct (PathMore.output_path_parts d p) as [x [E _]]. intros H.
  assert (N : endswith "n" (_output_path_for d p) = true).
  { rewrite E, <- PyStrFacts.app_assoc. now rewrite PathMore.endswith_app. }
  rewrite H in N. discriminate.
Qed.

Section Facts.

Variable W : Type.
Variable gui : W -> Gui.
Variable path_exists : string -> W -> bool.
Variable step : W -> W.
Variable spawn : list string -> W -> Proc * W.

Local Abbreviation process_item := (App.process_item W gui path_exists step spawn).
Local Abbreviation for_items := (App.for_items W gui path_exists step spawn).
Local Abbreviation run_with_fallback := (App.run_with_fallback W gui step spawn).

(** The entries of an item and the world it leaves, from the values
    read and the runs made. *)
Lemma process_item_run (exe : string) (total idx : nat) (inp : string) (w : W) :
  let w1 := step w in
  let outp := _output_path_for (outdir_var (gui w1)) inp in
  let args := invocation exe inp outp (pretty_var (gui (step w1)))
                (all_var (gui (step (step w1))))
                (stats_var (gui (step (step (step w1))))) in
  let run := run_with_fallback args (step (step (step w1))) in
  process_item exe total idx inp w
  = (Val tt,
     match fst (fst run) with
     | Val rc => if (rc =? 0)%Z then step (snd (fst run)) else snd (fst run)
     | Exc _ => snd (fst run)
     end,
     EvRunning idx total args
       :: snd run ++ App.closing W path_exists step (fst (fst run)) outp (snd (fst run))).
Proof.
  intros w1 outp args run.
  pose proof (build_args_eq W gui step exe inp outp w1) as B. cbv zeta in B.
  destruct run as [[r wb] evs] eqn:R.
  exact (process_item_eq W gui path_exists step spawn exe total idx inp w
           _ _ _ _ _ _ eq_refl B R).
Qed.

Lemma exes_for_items (exe : string) (total : nat) (items : list string) :
  forall idx w,
    exes_of (snd (for_items exe total idx items w)) = repeat exe (List.length items).
Proof.
  induction items as [|inp rest IH]; intros idx w; [reflexivity|].
  cbn [App.for_items]. unfold bind. rewrite process_item_run. cbv zeta.
  match goal with
  | |- context [App.for_items W gui path_exists step spawn exe total (S idx) rest ?w'] =>
      specialize (IH (S idx) w');
      destruct (App.for_items W gui path_exists step spawn exe total (S idx) rest w')
        as [[r2 w2] ev2]
  end.
  cbn [snd] in *. cbn [app exes_of nth invocation repeat List.length].
  rewrite !exes_of_app, IH.
  rewrite exes_of_progress by apply run_with_fallback_progress.
  rewrite exes_of_result by apply closing_result_block.
  reflexivity.
Qed.

End Facts.

Section Log.

Variable W : Type.
Variable gui : W -> Gui.
Variable path_exists : string -> W -> bool.
Variable step : W -> W.
Variable spawn : list string -> W -> Proc * W.

Local Abbreviation LW := (Logged.LW W).
Local Abbreviation lg := (Logged.l_gui W gui).
Local Abbreviation le := (Logged.l_exists W path_exists).
Local Abbreviation ls := (Logged.l_step W step).
Local Abbreviation lsp := (Logged.l_spawn W spawn).

(** One run, with or without its retry, in the record of launches. *)
Lemma run_log (args : list string) (w : LW) :
  let run := App.run_with_fallback LW lg ls lsp args w in
  (snd (snd (fst run)) = snd w ++ [args]
   /\ List.existsb is_retry (snd run) = false)
  \/ (snd (snd (fst run)) = snd w ++ [args; without_stats args]
      /\ stats_var (gui (step (snd (spawn args (fst w))))) = true).
Proof.
  assert (L : forall ls0, List.existsb is_retry (map EvLine ls0) = false)
    by (induction ls0; simpl; auto).
  intros run. pose proof (run_with_fallback_eq LW lg ls lsp args w) as E.
  change (App.run_with_fallback LW lg ls lsp args w) with run in E.
  unfold Logged.l_spawn at 1 in E.
  destruct (spawn args (fst w)) as [p w1]. cbv zeta in E. cbn [snd].
  destruct (p_end p) as [rc|msg];
    [|rewrite E; left; split; [reflexivity | apply L]].
  destruct (rc =? 0)%Z; [rewrite E; left; split; [reflexivity | apply L]|].
  unfold Logged.l_gui, Logged.l_step in E. cbn [fst snd] in E.
  destruct (stats_var (gui (step w1))) eqn:S; cbn [andb] in E;
    [|rewrite E; left; split; [reflexivity | apply L]].
  destruct (contains stats_marker _);
    [|rewrite E; left; split; [reflexivity | apply L]].
  right. unfold Logged.l_spawn in E. cbn [fst snd] in E.
  destruct (spawn (without_stats args) (step w1)) as [p2 w3].
  rewrite E. cbn [fst snd].
  split; [now rewrite <- List.app_assoc | reflexivity].
Qed.

Lemma item_log (exe : string) (total idx : nat) (inp : string) (w : LW) :
  let item := App.process_item LW lg le ls lsp exe total idx inp w in
  exists args,
    nth_error args 3 = Some inp
    /\ ((snd (snd (fst item)) = snd w ++ [args]
         /\ List.existsb is_retry (snd item) = false)
        \/ (snd (snd (fst item)) = snd w ++ [args; without_stats args]
            /\ exists w', stats_var (gui w') = true)).
Proof.
  cbv zeta. rewrite (process_item_run LW lg le ls lsp). cbv zeta.
  match goal with
  | |- context [App.run_with_fallback LW lg ls lsp ?a ?w0] =>
      exists a; pose proof (run_log a w0) as R; cbv zeta in R;
      destruct (App.run_with_fallback LW lg ls lsp a w0) as [[r wb] evs]
  end.
  split; [reflexivity|]. cbn [fst snd] in *.
  assert (Sw : forall x : LW,
             snd (match r with
                  | Val rc => if (rc =? 0)%Z then Logged.l_step W step x else x
                  | Exc _ => x
                  end) = snd x).
  { intros x. destruct r as [rc|msg]; [destruct (rc =? 0)%Z|]; reflexivity. }
  rewrite Sw. destruct R as [[R1 R2] | [R1 R2]].
  - left. split; [exact R1|].
    cbn [List.existsb is_retry orb]. rewrite List.existsb_app, R2. cbn [orb].
    destruct r as [rc|msg]; simpl; [destruct (_ && _)|]; reflexivity.
  - right. split; [exact R1|]. eexists. exact R2.
Qed.

Lemma for_items_log (exe : string) (total : nat) (items : list string) :
  forall idx (w : LW),
    let run := App.for_items LW lg le ls lsp exe total idx items w in
    exists launches,
      snd (snd (fst run)) = snd w ++ launches
      /\ List.length items <= List.length launches <= 2 * List.length items
      /\ ((forall w', stats_var (gui w') = false) ->
          map (fun a => nth 3 a "") launches = items
          /\ List.existsb is_retry (snd run) = false).
Proof.
  induction items as [|inp rest IH]; intros idx w.
  - exists []. simpl. rewrite app_nil_r. repeat split; auto.
  - cbv zeta. cbn [App.for_items]. unfold bind.
    destruct (item_log exe total idx inp w) as [args [A L]]. cbv zeta in L.
    assert (V : fst (fst (App.process_item LW lg le ls lsp exe total idx inp w))
                = Val tt)
      by (rewrite (process_item_run LW lg le ls lsp); reflexivity).
    destruct (App.process_item LW lg le ls lsp exe total idx inp w)
      as [[r1 w1] ev1]. cbn [fst snd] in V, L. subst r1.
    destruct (IH (S idx) w1) as [l2 [E2 [B2 N2]]]. cbv zeta in E2, B2, N2.
    destruct (App.for_items LW lg le ls lsp exe total (S idx) rest w1)
      as [[r2 w2] ev2]. cbn [fst snd] in *.
    destruct L as [[L1 L2] | [L1 [w' Hw']]].
    + exists (args :: l2). rewrite E2, L1, <- List.app_assoc.
      split; [reflexivity|]. split; [simpl; lia|].
      intros Hs. destruct (N2 Hs) as [M R]. split.
      * simpl. f_equal; [|exact M].
        destruct args as [|? [|? [|? [|? ?]]]]; try discriminate. now inversion A.
      * now rewrite List.existsb_app, L2, R.
    + exists (args :: without_stats args :: l2). rewrite E2, L1, <- List.app_assoc.
      split; [reflexivity|]. split; [simpl; lia|].
      intros Hs. rewrite Hs in Hw'. discriminate.
Qed.

End Log.

End WorkerMore.

Module MoreClaims.
Import PyStr App Props MoreProps.

Section Worker.

Variable W : Type.
Variable gui : W -> Gui.
Variable path_exists : string -> W -> bool.
Variable step : W -> W.
Variable spawn : list string -> W -> Proc * W.

(** X13. The executable is fixed when [run_queue] is called: the first
    console entry is the queue length and every [Running:] entry names
    the trimmed text of the executable field as it was at that moment,
    whatever is typed into the field while the worker runs. *)
Theorem run_queue_exe_snapshot
    (w : W) (exe : string) (items : list string)
    (thread : Res unit * W * list Event) :
  App.run_queue W gui path_exists step spawn w = Started W exe items thread ->
  exe = strip (exe_var (gui w))
  /\ hd EvDone (snd thread) = EvQueueLength (List.length (lst (gui w)))
  /\ exes_of (snd thread) = repeat exe (List.length (lst (gui w))).
Proof.
  unfold App.run_queue.
  destruct (negb (truthy (strip (exe_var (gui w))))); [discriminate|].
  destruct (negb (path_exists (strip (exe_var (gui w))) w)); [discriminate|].
  destruct (lst (gui w)) as [|i0 q] eqn:Q; [discriminate|].
  intros H. inversion H; subst exe items thread. clear H.
  split; [reflexivity|].
  unfold bind, _append, App.worker, bind, _append.
  pose proof (WorkerMore.exes_for_items W gui path_exists step spawn
                (strip (exe_var (gui w))) (List.length (i0 :: q)) (i0 :: q) 1 w) as E.
  destruct (App.for_items W gui path_exists step spawn _ _ 1 (i0 :: q) w)
    as [[r w'] evs].
  cbn [snd] in E. destruct r as [[]|msg]; cbn [snd app hd MoreProps.exes_of].
  - split; [reflexivity|]. rewrite WorkerMore.exes_of_app, E.
    cbn [MoreProps.exes_of]. apply app_nil_r.
  - split; [reflexivity|]. rewrite ?app_nil_r. exact E.
Qed.

(** X14. After a retry the result of the item is that of the second run
    alone: the entries are those of the first run, the notice, those of
    the second run and the closing entries computed from the end of the
    second run. *)
Theorem retry_decides_result
    (exe : string) (total idx : nat) (inp : string) (w : W)
    (outp : string) (args : list string) (wa : W)
    (p : Proc) (w1 : W) (rc : Z) (p2 : Proc) (w3 : W) :
  outp = _output_path_for (outdir_var (gui (step w))) inp ->
  App.build_args W gui step exe inp outp (step w) = (Val args, wa, []) ->
  spawn args wa = (p, w1) ->
  p_end p = Exited rc -> rc <> 0%Z ->
  stats_var (gui (step w1)) = true ->
  contains stats_marker (String.concat "" (p_lines p)) = true ->
  spawn (without_stats args) (step w1) = (p2, w3) ->
  snd (App.process_item W gui path_exists step spawn exe total idx inp w)
  = EvRunning idx total args
      :: (map EvLine (p_lines p) ++ [EvInfo; EvRetry (without_stats args)]
          ++ map EvLine (p_lines p2))
      ++ App.closing W path_exists step (end_result p2) outp w3.
Proof.
  intros Ho B S1 En Hrc St Hc S2.
  assert (R : App.run_with_fallback W gui step spawn args wa
              = (end_result p2, w3,
                 map EvLine (p_lines p) ++ [EvInfo; EvRetry (without_stats args)]
                 ++ map EvLine (p_lines p2))).
  { rewrite WorkerFacts.run_with_fallback_eq, S1. cbv zeta. rewrite En.
    apply Z.eqb_neq in Hrc. rewrite Hrc, St, Hc. cbn [andb]. now rewrite S2. }
  now rewrite (WorkerFacts.process_item_eq W gui path_exists step spawn
                 exe total idx inp w _ _ _ _ _ _ Ho B R).
Qed.

(** X16. In a world that keeps a record of the launches, a run over N
    items launches at least N and at most 2 N processes. *)
Theorem worker_launch_bounds
    (exe : string) (items : list string) (w : W) (log : list (list string)) :
  let run := Logged.l_worker W gui path_exists step spawn exe items (w, log) in
  exists launches,
    snd (snd (fst run)) = log ++ launches
    /\ List.length items <= List.length launches <= 2 * List.length items.
Proof.
  cbv zeta. unfold Logged.l_worker, App.worker, bind, _append.
  destruct (WorkerMore.for_items_log W gui path_exists step spawn exe
              (List.length items) items 1 (w, log)) as [l [E [B _]]].
  cbv zeta in E.
  destruct (App.for_items (Logged.LW W) (Logged.l_gui W gui)
              (Logged.l_exists W path_exists) (Logged.l_step W step)
              (Logged.l_spawn W spawn) exe (List.length items) 1 items (w, log))
    as [[r w'] evs].
  exists l. destruct r; cbn [fst snd] in *; auto.
Qed.

(** X17. While the stats check box is never set, nothing is retried:
    the launches of a run are exactly one per item, in queue order, and
    no retry entry appears, whatever the tool prints. *)
Theorem no_stats_no_retry
    (exe : string) (items : list string) (w : W) (log : list (list string)) :
  (forall w', stats_var (gui w') = false) ->
  let run := Logged.l_worker W gui path_exists step spawn exe items (w, log) in
  exists launches,
    snd (snd (fst run)) = log ++ launches
    /\ map (fun a => nth 3 a "") launches = items
    /\ List.existsb is_retry (snd run) = false.
Proof.
  intros Hs. cbv zeta. unfold Logged.l_worker, App.worker, bind, _append.
  destruct (WorkerMore.for_items_log W gui path_exists step spawn exe
              (List.length items) items 1 (w, log)) as [l [E [_ N]]].
  cbv zeta in E, N. destruct (N Hs) as [M R].
  destruct (App.for_items (Logged.LW W) (Logged.l_gui W gui)
              (Logged.l_exists W path_exists) (Logged.l_step W step)
              (Logged.l_spawn W spawn) exe (List.length items) 1 items (w, log))
    as [[r w'] evs].
  exists l. destruct r; cbn [fst snd] in *.
  - split; [exact E|]. split; [exact M|]. now rewrite List.existsb_app, R.
  - split; [exact E|]. split; [exact M|]. now rewrite ?app_nil_r.
Qed.

End Worker.

(** X15. The vector of the retry never holds an argument spelled
    [-stats]; when neither the executable nor the input is spelled
    [-stats], it is the vector of the first run without the flag, every
    other argument kept in place. *)
Theorem retry_vector (d exe inp : string) (pretty all stats : bool) :
  exe <> "-stats" -> inp <> "-stats" ->
  let outp := _output_path_for d inp in
  without_stats (invocation exe inp outp pretty all stats)
  = invocation exe inp outp pretty all false
  /\ forall args, List.existsb (String.eqb "-stats") (without_stats args) = false.
Proof.
  intros He Hi outp. split.
  - apply WorkerFacts.without_stats_invocation; auto.
    apply WorkerMore.output_path_not_flag.
  - apply WorkerMore.without_stats_clean.
Qed.

End MoreClaims.

Module MoreScenarios.
Import PyStr App Props MoreProps Demo.

Lemma run_queue_exe_snapshot_witness :
  let w := start ["a.jsonl"] true in
  let thread :=
    App.bind World (App._append World (EvQueueLength 1))
      (fun _ => demo_worker "acars_parser" ["a.jsonl"]) w in
  demo_run_queue w = Started World "acars_parser" ["a.jsonl"] thread
  /\ ("acars_parser" = strip (exe_var (d_gui w))
      /\ hd EvDone (snd thread) = EvQueueLength (List.length (lst (d_gui w)))
      /\ exes_of (snd thread) = repeat "acars_parser" (List.length (lst (d_gui w)))).
Proof.
  intros w thread. split; [reflexivity|].
  apply (MoreClaims.run_queue_exe_snapshot World d_gui d_exists d_step d_spawn
           w "acars_parser" ["a.jsonl"] thread).
  reflexivity.
Defined.

Lemma retry_decides_result_witness :
  let w := start ["a.jsonl"] true in
  let args := ["acars_parser"; "extract"; "-input"; "a.jsonl"; "-output";
               "a.json"; "-pretty"; "-all"; "-stats"] in
  let wa := d_step (d_step (d_step (d_step w))) in
  let p := fst (d_spawn args wa) in
  let w1 := snd (d_spawn args wa) in
  let p2 := fst (d_spawn (without_stats args) (d_step w1)) in
  let w3 := snd (d_spawn (without_stats args) (d_step w1)) in
  snd (demo_item "acars_parser" 1 1 "a.jsonl" w)
  = EvRunning 1 1 args
      :: (map EvLine (p_lines p) ++ [EvInfo; EvRetry (without_stats args)]
          ++ map EvLine (p_lines p2))
      ++ App.closing World d_exists d_step (end_result p2) "a.json" w3.
Proof.
  intros w args wa p w1 p2 w3.
  apply (MoreClaims.retry_decides_result World d_gui d_exists d_step d_spawn
           "acars_parser" 1 1 "a.jsonl" w "a.json" args wa p w1 2%Z p2 w3);
    try reflexivity.
  discriminate.
Defined.

Lemma no_stats_no_retry_witness :
  (forall n, stats_var (Logged.q_gui n) = false)
  /\ exists launches,
       snd (snd (fst (Logged.l_worker nat Logged.q_gui Logged.q_exists Logged.q_step
                        (Logged.q_spawn 2) "acars_parser" ["a.log"; "b.log"] (0, []))))
       = [] ++ launches
       /\ map (fun a => nth 3 a "") launches = ["a.log"; "b.log"]
       /\ List.existsb is_retry
            (snd (Logged.l_worker nat Logged.q_gui Logged.q_exists Logged.q_step
                    (Logged.q_spawn 2) "acars_parser" ["a.log"; "b.log"] (0, [])))
          = false.
Proof.
  split; [reflexivity|].
  apply (MoreClaims.no_stats_no_retry nat Logged.q_gui Logged.q_exists Logged.q_step
           (Logged.q_spawn 2) "acars_parser" ["a.log"; "b.log"] 0 []).
  reflexivity.
Defined.

Lemma retry_vector_witness :
  "acars_parser" <> "-stats" /\ "/logs/a.jsonl" <> "-stats"
  /\ (without_stats
        (invocation "acars_parser" "/logs/a.jsonl"
           (_output_path_for "" "/logs/a.jsonl") true false true)
      = invocation "acars_parser" "/logs/a.jsonl"
          (_output_path_for "" "/logs/a.jsonl") true false false
      /\ forall args, List.existsb (String.eqb "-stats") (without_stats args) = false).
Proof.
  split; [discriminate|]. split; [discriminate|].
  apply (MoreClaims.retry_vector "" "acars_parser" "/logs/a.jsonl" true false true);
    discriminate.
Defined.

End MoreScenarios.
